(** * A 2D BSP tree over polygons: shallow embedding of [BSPTree]

    The embedding follows [src/BSPTreeVisualization.tsx].  A TypeScript
    [number] is an IEEE-754 binary64 value, modelled by Rocq's primitive
    floats, so that [NaN], signed zeros, rounding and overflow behave as
    they do in the program; [Math.sqrt] is taken as the correctly rounded
    square root.  The tree is mutated in place by [insert]: the model
    threads the tree through every call and returns, next to the tree as the
    call left it, how the call completed.  [_insertHelper] recurses without
    a structural measure (a SPANNING polygon is split and its fragments are
    handed to the same node), so the model gives it a recursion depth
    budget; a call that uses the budget up is reported as [Diverged], and a
    call that is [Diverged] for every budget never returns.  In an engine the
    budget is the call stack: a call that exhausts it is ended by a
    [RangeError], which unwinds the pending calls as any exception does. *)

From Stdlib Require Import String List Arith Lia Bool ZArith Floats Permutation.
Import ListNotations.

Set Warnings "-inexact-float,-register-all".

(** ** Data model *)

Definition number := float.

Record Point := mkPoint { x : number; y : number }.

Record Polygon := mkPolygon { id : number; points : list Point; color : string }.

Record Partition := mkPartition { point : Point; normal : Point }.

(** [class BSPNode]: [front] and [back] are [BSPNode | null]. *)
Inductive BSPNode : Type :=
  Node (partition : Partition) (front back : option BSPNode) (polygons : list Polygon).

(** A property of a child slot: it holds of the child when there is one. *)
Definition onChild (P : BSPNode -> Prop) (child : option BSPNode) : Prop :=
  match child with
  | Some c => P c
  | None => True
  end.

(** Induction over a node, with the property assumed of each child present. *)
Fixpoint BSPNode_nested_ind (P : BSPNode -> Prop)
    (step : forall part f b ps, onChild P f -> onChild P b -> P (Node part f b ps))
    (n : BSPNode) : P n :=
  match n with
  | Node part f b ps =>
      step part f b ps
        (match f return onChild P f with
         | Some c => BSPNode_nested_ind P step c
         | None => I
         end)
        (match b return onChild P b with
         | Some c => BSPNode_nested_ind P step c
         | None => I
         end)
  end.

Definition partition (n : BSPNode) : Partition := let 'Node p _ _ _ := n in p.
Definition front (n : BSPNode) : option BSPNode := let 'Node _ f _ _ := n in f.
Definition back (n : BSPNode) : option BSPNode := let 'Node _ _ b _ := n in b.
Definition polygons (n : BSPNode) : list Polygon := let 'Node _ _ _ ps := n in ps.

(** [class BSPTree]: the only field is [root]. *)
Record BSPTree := mkTree { root : option BSPNode }.

Definition emptyTree : BSPTree := mkTree None.

(** The four strings returned by [classifyPolygon]. *)
Inductive Classification := FRONT | BACK | COPLANAR | SPANNING.

(** How a call completes.  The source has no [throw]; the only exception its
    own statements can raise is the runtime [TypeError] of reading [.x] of
    [polygon.points[0]] or [polygon.points[1]] when that element is
    [undefined].  [Diverged]: the recursion has not returned within the
    budget; the engine reports an exhausted call stack as a [RangeError],
    and the calls still pending are abandoned. *)
Inductive JSError := TypeError.

Inductive completion (A : Type) :=
| Normal (a : A)
| Throw (e : JSError).
Arguments Normal {A} a.
Arguments Throw {A} e.

Inductive outcome := Returned | Threw (e : JSError) | Diverged.

(** ** Geometry *)

Open Scope float_scope.

Definition pointToPlaneDistance (pt : Point) (part : Partition) : number :=
  let dx := x pt - x (point part) in
  let dy := y pt - y (point part) in
  dx * x (normal part) + dy * y (normal part).

Definition createPartition (polygon : Polygon) : completion Partition :=
  match points polygon with
  | p1 :: p2 :: _ =>
      let dx := x p2 - x p1 in
      let dy := y p2 - y p1 in
      let nrm := mkPoint (- dy) dx in
      let len := sqrt (x nrm * x nrm + y nrm * y nrm) in
      Normal (mkPartition p1 (mkPoint (x nrm / len) (y nrm / len)))
  | _ => Throw TypeError
  end.

Definition EPSILON : number := 0.1.

(** One iteration of the counting loop of [classifyPolygon]. *)
Definition classifyStep (part : Partition) (counts : nat * nat) (pt : Point) : nat * nat :=
  let '(frontCount, backCount) := counts in
  let dist := pointToPlaneDistance pt part in
  if EPSILON <? dist then (S frontCount, backCount)
  else if dist <? - EPSILON then (frontCount, S backCount)
  else (frontCount, backCount).

Definition classifyCounts (polygon : Polygon) (part : Partition) : nat * nat :=
  fold_left (classifyStep part) (points polygon) (0%nat, 0%nat).

Definition classifyPolygon (polygon : Polygon) (part : Partition) : Classification :=
  let '(frontCount, backCount) := classifyCounts polygon part in
  if (0 <? frontCount)%nat && (backCount =? 0)%nat then FRONT
  else if (0 <? backCount)%nat && (frontCount =? 0)%nat then BACK
  else if (frontCount =? 0)%nat && (backCount =? 0)%nat then COPLANAR
  else SPANNING.

(** ** Clipping *)

(** Default of [nth]; the loop indices stay below [points.length], so it is
    never read. *)
Definition origin : Point := mkPoint 0 0.

Definition crosses (currDist nextDist : number) : bool :=
  ((0 <? currDist) && (nextDist <? 0)) || ((currDist <? 0) && (0 <? nextDist)).

(** One iteration of the edge loop of [splitPolygon], at index [i]. *)
Definition splitStep (pts : list Point) (part : Partition)
    (acc : list Point * list Point) (i : nat) : list Point * list Point :=
  let '(frontPoints, backPoints) := acc in
  let curr := nth i pts origin in
  let next := nth ((i + 1) mod length pts) pts origin in
  let currDist := pointToPlaneDistance curr part in
  let nextDist := pointToPlaneDistance next part in
  let frontPoints := if 0 <=? currDist then frontPoints ++ [curr] else frontPoints in
  let backPoints := if currDist <=? 0 then backPoints ++ [curr] else backPoints in
  if crosses currDist nextDist then
    let t := currDist / (currDist - nextDist) in
    let intersection :=
      mkPoint (x curr + t * (x next - x curr)) (y curr + t * (y next - y curr)) in
    (frontPoints ++ [intersection], backPoints ++ [intersection])
  else (frontPoints, backPoints).

Definition splitLists (polygon : Polygon) (part : Partition) : list Point * list Point :=
  fold_left (splitStep (points polygon) part) (seq 0 (length (points polygon))) ([], []).

Definition fragment (polygon : Polygon) (pts : list Point) : option Polygon :=
  if (3 <=? length pts)%nat then Some (mkPolygon (id polygon) pts (color polygon)) else None.

Definition splitPolygon (polygon : Polygon) (part : Partition)
    : option Polygon * option Polygon :=
  let '(frontPoints, backPoints) := splitLists polygon part in
  (fragment polygon frontPoints, fragment polygon backPoints).

(** ** Insertion *)

Definition leaf (part : Partition) (polygon : Polygon) : BSPNode :=
  Node part None None [polygon].

(** [fuel] bounds the recursion depth. The node returned is the node as the
    call left it, also when the call throws or runs out of budget. *)
Fixpoint _insertHelper (fuel : nat) (node : BSPNode) (polygon : Polygon)
    : BSPNode * outcome :=
  match fuel with
  | O => (node, Diverged)
  | S fuel' =>
      let 'Node part f b ps := node in
      match classifyPolygon polygon part with
      | COPLANAR => (Node part f b (ps ++ [polygon]), Returned)
      | FRONT =>
          match f with
          | None =>
              match createPartition polygon with
              | Normal p => (Node part (Some (leaf p polygon)) b ps, Returned)
              | Throw e => (node, Threw e)
              end
          | Some child =>
              let '(child', o) := _insertHelper fuel' child polygon in
              (Node part (Some child') b ps, o)
          end
      | BACK =>
          match b with
          | None =>
              match createPartition polygon with
              | Normal p => (Node part f (Some (leaf p polygon)) ps, Returned)
              | Throw e => (node, Threw e)
              end
          | Some child =>
              let '(child', o) := _insertHelper fuel' child polygon in
              (Node part f (Some child') ps, o)
          end
      | SPANNING =>
          let '(fr, bk) := splitPolygon polygon part in
          let '(node1, o1) :=
            match fr with
            | Some p => _insertHelper fuel' node p
            | None => (node, Returned)
            end in
          match o1 with
          | Returned =>
              match bk with
              | Some p => _insertHelper fuel' node1 p
              | None => (node1, Returned)
              end
          | _ => (node1, o1)
          end
      end
  end.

Definition insert (fuel : nat) (tree : BSPTree) (polygon : Polygon) : BSPTree * outcome :=
  match root tree with
  | None =>
      match createPartition polygon with
      | Normal p => (mkTree (Some (leaf p polygon)), Returned)
      | Throw e => (tree, Threw e)
      end
  | Some r =>
      let '(r', o) := _insertHelper fuel r polygon in (mkTree (Some r'), o)
  end.

(** ** Traversal and introspection *)

Section Traversal.
Variable S : Type.
Variable callback : BSPNode -> S -> S.

(** [_traverseHelper] on a node that is not null; [callback] threads the
    state it accumulates. *)
Fixpoint _traverseNode (node : BSPNode) (viewpoint : Point) (s : S) : S :=
  let go (child : option BSPNode) (s : S) : S :=
    match child with
    | None => s
    | Some c => _traverseNode c viewpoint s
    end in
  let dist := pointToPlaneDistance viewpoint (partition node) in
  match node with
  | Node _ f b _ =>
      if 0 <? dist then go f (callback node (go b s))
      else go b (callback node (go f s))
  end.

Definition _traverseHelper (node : option BSPNode) (viewpoint : Point) (s : S) : S :=
  match node with
  | None => s
  | Some n => _traverseNode n viewpoint s
  end.

Definition traverseFrontToBack (tree : BSPTree) (viewpoint : Point) (s : S) : S :=
  _traverseHelper (root tree) viewpoint s.
End Traversal.
Arguments _traverseNode {S} callback node viewpoint s.
Arguments _traverseHelper {S} callback node viewpoint s.
Arguments traverseFrontToBack {S} callback tree viewpoint s.

(** [getHeight] and [countNodes], first on a node that is not null. *)
Fixpoint heightNode (node : BSPNode) : nat :=
  match node with
  | Node _ f b _ =>
      1 + Nat.max (match f with None => 0 | Some c => heightNode c end)
                  (match b with None => 0 | Some c => heightNode c end)
  end.

Definition getHeight (node : option BSPNode) : nat :=
  match node with None => 0 | Some n => heightNode n end.

Fixpoint countNode (node : BSPNode) : nat :=
  match node with
  | Node _ f b _ =>
      1 + (match f with None => 0 | Some c => countNode c end)
        + (match b with None => 0 | Some c => countNode c end)
  end.

Definition countNodes (node : option BSPNode) : nat :=
  match node with None => 0 | Some n => countNode n end.

(** [updateRenderOrder]: the callback pushes the node's polygons. *)
Definition pushPolygons (node : BSPNode) (order : list Polygon) : list Polygon :=
  order ++ polygons node.

Definition renderOrder (tree : BSPTree) (viewpoint : Point) : list Polygon :=
  traverseFrontToBack pushPolygons tree viewpoint [].

(** * Inputs and vocabulary of the properties

    Sample polygons and trees, and the predicates in which the properties
    below are stated. *)

(** ** The three-square scene *)

Definition square (i : number) (x0 y0 x1 y1 : number) : Polygon :=
  mkPolygon i [mkPoint x0 y0; mkPoint x1 y0; mkPoint x1 y1; mkPoint x0 y1] "#000000".

Definition squareA := square 1 0 0 10 10.
Definition squareB := square 2 0 20 10 30.
Definition squareC := square 3 0 (-30) 10 (-20).

Definition partitionA : Partition := mkPartition (mkPoint 0 0) (mkPoint (-0) 1).
Definition partitionB : Partition := mkPartition (mkPoint 0 20) (mkPoint (-0) 1).
Definition partitionC : Partition := mkPartition (mkPoint 0 (-30)) (mkPoint (-0) 1).

Definition sceneTree : BSPTree :=
  mkTree (Some (Node partitionA (Some (leaf partitionB squareB))
                                (Some (leaf partitionC squareC)) [squareA])).

(** ** Classification *)

Definition isFront (part : Partition) (pt : Point) : bool :=
  EPSILON <? pointToPlaneDistance pt part.

Definition isBack (part : Partition) (pt : Point) : bool :=
  pointToPlaneDistance pt part <? - EPSILON.

(** Within the epsilon band of the plane: [-EPSILON <= dist <= EPSILON]. *)
Definition inBand (part : Partition) (pt : Point) : bool :=
  (- EPSILON <=? pointToPlaneDistance pt part) && (pointToPlaneDistance pt part <=? EPSILON).

(** The table of the specification, read off its four rows. *)
Definition fourWayTable (frontCount backCount : nat) : Classification :=
  match frontCount, backCount with
  | S _, O => FRONT
  | O, S _ => BACK
  | O, O => COPLANAR
  | S _, S _ => SPANNING
  end.

(** A triangle within the epsilon band of the plane of [partitionA]. *)
Definition nearPlane : Polygon :=
  mkPolygon 4 [mkPoint 0 0; mkPoint 10 0; mkPoint 5 0.05] "#000000".

(** ** Clipping *)

Definition vertexDistance (pts : list Point) (part : Partition) (i : nat) : number :=
  pointToPlaneDistance (nth i pts origin) part.

(** The edge from vertex [i] to its successor crosses the plane. *)
Definition edgeCrosses (pts : list Point) (part : Partition) (i : nat) : bool :=
  crosses (vertexDistance pts part i) (vertexDistance pts part ((i + 1) mod length pts)).

Definition crossingEdges (polygon : Polygon) (part : Partition) : nat :=
  length (filter (edgeCrosses (points polygon) part) (seq 0 (length (points polygon)))).

(** Vertices exactly on the plane (distance [+0] or [-0]) and vertices whose
    distance is NaN. *)
Definition onPlane (part : Partition) (pt : Point) : bool :=
  pointToPlaneDistance pt part =? 0.

Definition nanDistance (part : Partition) (pt : Point) : bool :=
  is_nan (pointToPlaneDistance pt part).

Definition onPlaneVertices (polygon : Polygon) (part : Partition) : nat :=
  length (filter (onPlane part) (points polygon)).

Definition nanVertices (polygon : Polygon) (part : Partition) : nat :=
  length (filter (nanDistance part) (points polygon)).

Definition frontSide (part : Partition) (pt : Point) : bool :=
  0 <=? pointToPlaneDistance pt part.

Definition backSide (part : Partition) (pt : Point) : bool :=
  pointToPlaneDistance pt part <=? 0.

(** A square crossed through its middle by the plane of [partitionA]. *)
Definition crossedSquare : Polygon := square 7 0 (-5) 10 5.

(** ** Traversal *)

(** The sequence of callback invocations, recorded by a callback that pushes
    the node it receives. *)
Definition record (node : BSPNode) (log : list BSPNode) : list BSPNode := log ++ [node].

Definition visitOrder (node : option BSPNode) (viewpoint : Point) : list BSPNode :=
  _traverseHelper record node viewpoint [].

(** All nodes of a (sub)tree, each listed once. *)
Fixpoint nodesOf (node : BSPNode) : list BSPNode :=
  match node with
  | Node _ f b _ =>
      node :: (match f with None => [] | Some c => nodesOf c end)
           ++ (match b with None => [] | Some c => nodesOf c end)
  end.

Definition allNodes (node : option BSPNode) : list BSPNode :=
  match node with None => [] | Some n => nodesOf n end.

(** A callback paired with a log of the nodes it is given. *)
Definition logged {S : Type} (callback : BSPNode -> S -> S)
    (node : BSPNode) (st : S * list BSPNode) : S * list BSPNode :=
  (callback node (fst st), snd st ++ [node]).

(** ** Invariants and frame of an insertion *)

(** [P] holds of the node and of every node below it. *)
Fixpoint everyNode (P : BSPNode -> Prop) (node : BSPNode) : Prop :=
  match node with
  | Node _ f b _ =>
      P node /\
      match f with Some c => everyNode P c | None => True end /\
      match b with Some c => everyNode P c | None => True end
  end.

Definition everyNodeOf (P : BSPNode -> Prop) (node : option BSPNode) : Prop :=
  match node with Some n => everyNode P n | None => True end.

Definition holdsPolygon (node : BSPNode) : Prop := polygons node <> [].

(** Trees reachable from the empty tree by calls of [insert], whatever their
    recursion budget and however they complete. *)
Inductive built : BSPTree -> Prop :=
| built_empty : built emptyTree
| built_insert fuel tree polygon :
    built tree -> built (fst (insert fuel tree polygon)).

(** [extends old new]: [new] has the partition of [old], the polygons of [old]
    followed by appended ones, and in every child slot that [old] fills, a
    node that extends the child of [old]. Slots empty in [old] are free. *)
Fixpoint extends (old new : BSPNode) {struct old} : Prop :=
  match old with
  | Node part f b ps =>
      partition new = part /\
      (exists extra, polygons new = ps ++ extra) /\
      match f with
      | None => True
      | Some c => match front new with Some c' => extends c c' | None => False end
      end /\
      match b with
      | None => True
      | Some c => match back new with Some c' => extends c c' | None => False end
      end
  end.

Definition slotExtends (old new : option BSPNode) : Prop :=
  match old with
  | None => True
  | Some c => match new with Some c' => extends c c' | None => False end
  end.

(** Child links followed from a node: the address of a node in the tree. *)
Inductive Side := Front | Back.

Definition child (sd : Side) (node : BSPNode) : option BSPNode :=
  match sd with Front => front node | Back => back node end.

Fixpoint nodeAt (node : option BSPNode) (address : list Side) : option BSPNode :=
  match address with
  | [] => node
  | sd :: rest =>
      match node with
      | None => None
      | Some n => nodeAt (child sd n) rest
      end
  end.

(** The addresses of the nodes, in the order in which the traversal reaches
    them: the address sequence of [visitOrder]. *)
Fixpoint addressOrder (node : BSPNode) (viewpoint : Point) : list (list Side) :=
  match node with
  | Node part f b _ =>
      let below (sd : Side) (c : option BSPNode) : list (list Side) :=
        match c with
        | None => []
        | Some c' => map (cons sd) (addressOrder c' viewpoint)
        end in
      if 0 <? pointToPlaneDistance viewpoint part
      then below Back b ++ [[]] ++ below Front f
      else below Front f ++ [[]] ++ below Back b
  end.

Definition visitAddresses (node : option BSPNode) (viewpoint : Point) : list (list Side) :=
  match node with None => [] | Some n => addressOrder n viewpoint end.

(** ** Termination of an insertion *)

(** Every split on the polygon's way separates: at each node reached the
    polygon is FRONT, BACK or COPLANAR, or it is SPANNING with a front fragment
    that the same node classifies FRONT or COPLANAR and a back fragment that it
    classifies BACK or COPLANAR, and so on in the subtree each descends into. *)
Fixpoint settles (node : BSPNode) (polygon : Polygon) : bool :=
  match node with
  | Node part f b _ =>
      let down (c : option BSPNode) (q : Polygon) : bool :=
        match c with Some c' => settles c' q | None => true end in
      match classifyPolygon polygon part with
      | COPLANAR => true
      | FRONT => down f polygon
      | BACK => down b polygon
      | SPANNING =>
          match fst (splitPolygon polygon part) with
          | None => true
          | Some q =>
              match classifyPolygon q part with
              | FRONT => down f q
              | COPLANAR => true
              | _ => false
              end
          end &&
          match snd (splitPolygon polygon part) with
          | None => true
          | Some q =>
              match classifyPolygon q part with
              | BACK => down b q
              | COPLANAR => true
              | _ => false
              end
          end
      end
  end.

Definition settlesTree (tree : BSPTree) (polygon : Polygon) : bool :=
  match root tree with Some r => settles r polygon | None => true end.

(** A root whose plane has normal (-0.8, 0.6), and a quadrilateral with two
    far vertices: against that plane the intersection computed on its leading
    edge is the vertex (1,0) itself, at distance -0.8 from the plane. *)
Definition wedge : Polygon :=
  mkPolygon 1 [mkPoint 0 0; mkPoint 3 4; mkPoint 0 5] "#000000".

Definition wedgePartition : Partition :=
  mkPartition (mkPoint 0 0) (mkPoint (-0.8) 0.6).

Definition wedgeTree : BSPTree := mkTree (Some (leaf wedgePartition wedge)).

Definition sliver : Polygon :=
  mkPolygon 2 [mkPoint 0 0x1p60; mkPoint 1 0; mkPoint 0 0; mkPoint (-0x1p60) 0x1p60]
            "#000000".

(** ** Polygons that a validation would reject *)

(** A triangle whose first two vertices coincide. *)
Definition degenerate : Polygon :=
  mkPolygon 9 [mkPoint 5 5; mkPoint 5 5; mkPoint 6 7] "#000000".

Definition nanPartition (p : Point) : Partition := mkPartition p (mkPoint nan nan).

(** A polygon with two vertices, and one with none. *)
Definition segment : Polygon := mkPolygon 5 [mkPoint 0 0; mkPoint 10 0] "#000000".
Definition noVertex : Polygon := mkPolygon 6 [] "#000000".

(** A polygon with two vertices, one of them far away: the plane of
    [wedgePartition] cuts it, and the front fragment that [splitPolygon]
    returns is cut by the same plane into itself. *)
Definition farSegment : Polygon :=
  mkPolygon 8 [mkPoint 0 0x1p60; mkPoint 1 0] "#000000".

(** * Further operations and vocabulary

    The callers of the tree in the component ([forEach] over the sample
    polygons, [updateStats], the tree drawing, the animation effect), and the
    predicates in which further properties of the tree are stated. *)

(** ** Polygons stored in a tree *)

Definition allPolygons (node : option BSPNode) : list Polygon :=
  flat_map polygons (allNodes node).

(** [Subseq s l]: [s] is [l] with some elements left out, order kept. *)
Inductive Subseq {A : Type} : list A -> list A -> Prop :=
| Subseq_nil : Subseq [] []
| Subseq_skip a s l : Subseq s l -> Subseq s (a :: l)
| Subseq_take a s l : Subseq s l -> Subseq (a :: s) (a :: l).

(** What [insert] of [polygon] may store: the polygon itself or a fragment
    of it, which has its identifier and colour and at least 3 vertices. *)
Definition pieceOf (polygon q : Polygon) : Prop :=
  id q = id polygon /\ color q = color polygon /\
  (q = polygon \/ (3 <= length (points q))%nat).

(** A node as [insert] makes it: its partition is the partition of its first
    polygon, and every polygon after the first is COPLANAR with it. *)
Definition wellFormedNode (node : BSPNode) : Prop :=
  exists creator rest,
    polygons node = creator :: rest /\
    createPartition creator = Normal (partition node) /\
    Forall (fun q => classifyPolygon q (partition node) = COPLANAR) rest.

(** [samplePolygons.forEach(poly => bspTree.insert(poly))]: the loop ends at
    the first call that does not return. *)
Fixpoint insertAll (fuel : nat) (tree : BSPTree) (polys : list Polygon)
    : BSPTree * outcome :=
  match polys with
  | [] => (tree, Returned)
  | poly :: rest =>
      let '(tree', o) := insert fuel tree poly in
      match o with
      | Returned => insertAll fuel tree' rest
      | _ => (tree', o)
      end
  end.

(** ** Viewpoints *)

Definition inFront (viewpoint : Point) (node : BSPNode) : bool :=
  0 <? pointToPlaneDistance viewpoint (partition node).

Definition sameSide (v1 v2 : Point) (node : BSPNode) : Prop :=
  inFront v1 node = inFront v2 node.

Definition oppositeSide (v1 v2 : Point) (node : BSPNode) : Prop :=
  inFront v1 node = negb (inFront v2 node).

(** ** Clipping and routing *)

Definition strictlyFront (part : Partition) (pt : Point) : bool :=
  0 <? pointToPlaneDistance pt part.

Definition strictlyBack (part : Partition) (pt : Point) : bool :=
  pointToPlaneDistance pt part <? 0.

(** No node on the polygon's way classifies it as SPANNING. *)
Fixpoint routes (node : BSPNode) (polygon : Polygon) : bool :=
  match node with
  | Node part f b _ =>
      match classifyPolygon polygon part with
      | COPLANAR => true
      | FRONT => match f with Some c => routes c polygon | None => true end
      | BACK => match b with Some c => routes c polygon | None => true end
      | SPANNING => false
      end
  end.

Definition routesTree (tree : BSPTree) (polygon : Polygon) : bool :=
  match root tree with Some r => routes r polygon | None => true end.

(** Plane crossings along a chain of signed distances that starts at [a]:
    the number of consecutive pairs that [crosses] accepts. *)
Fixpoint crossFrom (a : number) (l : list number) : nat :=
  match l with
  | [] => 0
  | b :: rest => ((if crosses a b then 1 else 0) + crossFrom b rest)%nat
  end.

(** A distance that is on side [A], on side [B] or on neither ([Z]), and
    exactly one of the three. *)
Definition signed (A B Z : number -> bool) (d : number) : Prop :=
  (A d = true /\ B d = false /\ Z d = false) \/
  (A d = false /\ B d = true /\ Z d = false) \/
  (A d = false /\ B d = false /\ Z d = true).

Definition positive (d : number) : bool := 0 <? d.
Definition negative (d : number) : bool := d <? 0.
Definition isZero (d : number) : bool := d =? 0.

(** ** The tree drawing

    [drawTreeStructure] returns the SVG elements of the tree view. An element
    is kept with the numbers and the side its attributes are made of: a line
    with the side and the position that make its key ([line-f-x-y] or
    [line-b-x-y]) and its end points; a node glyph with its centre (also its
    key), the polygon count of its label and the two normal components that
    the second label prints with [toFixed(1)]. *)

Inductive Element :=
| LineElement (side : Side) (keyX keyY x1 y1 x2 y2 : number)
| NodeElement (cx cy : number) (polygonCount : nat) (normalX normalY : number).

Definition nodeRadius : number := 25.
Definition verticalGap : number := 80.

Fixpoint drawTreeNode (node : BSPNode) (px py level xOffset : number) : list Element :=
  match node with
  | Node part f b ps =>
      (match f with
       | None => []
       | Some c =>
           let childX := px - xOffset in
           let childY := py + verticalGap in
           LineElement Front px py px (py + nodeRadius) childX (childY - nodeRadius)
           :: drawTreeNode c childX childY (level + 1) (xOffset / 2)
       end)
      ++ (match b with
          | None => []
          | Some c =>
              let childX := px + xOffset in
              let childY := py + verticalGap in
              LineElement Back px py px (py + nodeRadius) childX (childY - nodeRadius)
              :: drawTreeNode c childX childY (level + 1) (xOffset / 2)
          end)
      ++ [NodeElement px py (length ps) (x (normal part)) (y (normal part))]
  end.

Definition drawTreeStructure (node : option BSPNode) (px py level xOffset : number)
    : list Element :=
  match node with
  | None => []
  | Some n => drawTreeNode n px py level xOffset
  end.

Definition isGlyph (e : Element) : bool :=
  match e with NodeElement _ _ _ _ _ => true | LineElement _ _ _ _ _ _ _ => false end.

Definition isLine (e : Element) : bool := negb (isGlyph e).

Definition labelOf (e : Element) : nat :=
  match e with NodeElement _ _ n _ _ => n | LineElement _ _ _ _ _ _ _ => 0 end.

(** ** The component's state and handlers

    The state kept by the hooks of [BSPTreeVisualization]; [statePolygons]
    and [stateRenderOrder] are the [polygons] and [renderOrder] hooks. A
    handler is modelled by the state it leaves for the next render: the tree
    object is mutated at once, the setters take effect together, and an
    exception thrown by [insert] skips the rest of the handler. The render
    is followed by the effects whose dependencies have changed. *)

Record Stats := mkStats { height : nat; nodes : nat }.

Record Session := mkSession {
  bspTree : BSPTree;
  statePolygons : list Polygon;
  viewpoint : Point;
  stateRenderOrder : list Polygon;
  isAnimating : bool;
  currentStep : nat;
  stats : Stats;
  isDragging : bool
}.

Definition initialSession : Session :=
  mkSession emptyTree [] (mkPoint 250 450) [] false 0 (mkStats 0 0) false.

Definition samplePolygons : list Polygon :=
  [ mkPolygon 1 [mkPoint 100 200; mkPoint 200 200; mkPoint 200 300; mkPoint 100 300] "#ef4444";
    mkPolygon 2 [mkPoint 250 150; mkPoint 350 150; mkPoint 350 250; mkPoint 250 250] "#3b82f6";
    mkPolygon 3 [mkPoint 150 300; mkPoint 250 300; mkPoint 250 400; mkPoint 150 400] "#10b981";
    mkPolygon 4 [mkPoint 300 250; mkPoint 400 250; mkPoint 400 350; mkPoint 300 350] "#f59e0b" ].

(** [updateRenderOrder] and [updateStats] read the tree as it is now. *)
Definition updateRenderOrder (s : Session) : Session :=
  mkSession (bspTree s) (statePolygons s) (viewpoint s)
            (renderOrder (bspTree s) (viewpoint s))
            (isAnimating s) (currentStep s) (stats s) (isDragging s).

Definition updateStats (s : Session) : Session :=
  mkSession (bspTree s) (statePolygons s) (viewpoint s) (stateRenderOrder s)
            (isAnimating s) (currentStep s)
            (mkStats (getHeight (root (bspTree s))) (countNodes (root (bspTree s))))
            (isDragging s).

Definition withTree (s : Session) (tree : BSPTree) : Session :=
  mkSession tree (statePolygons s) (viewpoint s) (stateRenderOrder s)
            (isAnimating s) (currentStep s) (stats s) (isDragging s).

Definition setPolygons (s : Session) (polys : list Polygon) : Session :=
  mkSession (bspTree s) polys (viewpoint s) (stateRenderOrder s)
            (isAnimating s) (currentStep s) (stats s) (isDragging s).

(** The effect run on mount. *)
Definition mountEffect (fuel : nat) (s : Session) : Session :=
  let '(tree, o) := insertAll fuel (bspTree s) samplePolygons in
  match o with
  | Returned => updateStats (updateRenderOrder (setPolygons (withTree s tree) samplePolygons))
  | _ => withTree s tree
  end.

(** The square that [addRandomPolygon] builds from its draws: [r1], [r2] and
    [r3] are the three results of [Math.random()] for the corner and the
    size, [now] is [Date.now()], and [colour] the entry of [colors] that the
    fourth draw selects. *)
Definition randomSquare (r1 r2 r3 : number) (now : number) (colour : string) : Polygon :=
  let x0 := r1 * 350 + 50 in
  let y0 := r2 * 300 + 100 in
  let size := r3 * 50 + 50 in
  mkPolygon now
            [mkPoint x0 y0; mkPoint (x0 + size) y0;
             mkPoint (x0 + size) (y0 + size); mkPoint x0 (y0 + size)]
            colour.

Definition addPolygon (fuel : nat) (newPoly : Polygon) (s : Session) : Session :=
  let '(tree, o) := insert fuel (bspTree s) newPoly in
  match o with
  | Returned =>
      updateStats (updateRenderOrder
                     (setPolygons (withTree s tree) (statePolygons s ++ [newPoly])))
  | _ => withTree s tree
  end.

Definition addRandomPolygon (fuel : nat) (r1 r2 r3 now : number) (colour : string)
    (s : Session) : Session :=
  addPolygon fuel (randomSquare r1 r2 r3 now colour) s.

Definition clearScene (s : Session) : Session :=
  updateStats (mkSession (mkTree None) [] (viewpoint s) [] false 0 (stats s) (isDragging s)).

Definition animateRender (s : Session) : Session :=
  mkSession (bspTree s) (statePolygons s) (viewpoint s) (stateRenderOrder s)
            true 0 (stats s) (isDragging s).

(** The animation effect. While the animation runs and polygons are left to
    show it only arms the timer; once [currentStep] has reached the length of
    the render order it calls [setIsAnimating(false)] at once. *)
Definition animationEffect (s : Session) : Session :=
  if isAnimating s && (currentStep s <? length (stateRenderOrder s))%nat then s
  else if (length (stateRenderOrder s) <=? currentStep s)%nat then
    mkSession (bspTree s) (statePolygons s) (viewpoint s) (stateRenderOrder s)
              false (currentStep s) (stats s) (isDragging s)
  else s.

(** Its dependency array [[isAnimating, currentStep, renderOrder.length]]. *)
Definition animationDeps (s : Session) : bool * nat * nat :=
  (isAnimating s, currentStep s, length (stateRenderOrder s)).

Definition sameDeps (d1 d2 : bool * nat * nat) : bool :=
  let '(a1, c1, n1) := d1 in
  let '(a2, c2, n2) := d2 in
  Bool.eqb a1 a2 && (c1 =? c2)%nat && (n1 =? n2)%nat.

(** The render that follows a change of state: the animation effect runs
    when one of its dependencies differs from the render before. (The render
    that its own [setIsAnimating(false)] causes runs it once more, and that
    run changes nothing: see [animationEffect_idempotent].) *)
Definition rerender (before after : Session) : Session :=
  if sameDeps (animationDeps before) (animationDeps after) then after
  else animationEffect after.

(** The timer is armed by the first branch of the effect and cleared when
    the effect runs again. *)
Definition timerPending (s : Session) : bool :=
  isAnimating s && (currentStep s <? length (stateRenderOrder s))%nat.

(** The timer's callback [setCurrentStep(currentStep + 1)]. *)
Definition timerCallback (s : Session) : Session :=
  if timerPending s then
    mkSession (bspTree s) (statePolygons s) (viewpoint s) (stateRenderOrder s)
              (isAnimating s) (currentStep s + 1) (stats s) (isDragging s)
  else s.

(** The effect has nothing to switch off: the state of the component between
    two events. *)
Definition settled (s : Session) : bool :=
  negb (isAnimating s) || (currentStep s <? length (stateRenderOrder s))%nat.

(** [setViewpoint] followed by the effect that depends on the viewpoint. *)
Definition setViewpoint (s : Session) (pos : Point) : Session :=
  updateRenderOrder
    (mkSession (bspTree s) (statePolygons s) pos (stateRenderOrder s)
               (isAnimating s) (currentStep s) (stats s) (isDragging s)).

Definition setIsDragging (s : Session) (b : bool) : Session :=
  mkSession (bspTree s) (statePolygons s) (viewpoint s) (stateRenderOrder s)
            (isAnimating s) (currentStep s) (stats s) b.

Definition handleMouseDown (pos : Point) (s : Session) : Session :=
  setViewpoint (setIsDragging s true) pos.

Definition handleMouseMove (pos : Point) (s : Session) : Session :=
  if isDragging s then setViewpoint s pos else s.

Definition handleMouseUp (s : Session) : Session := setIsDragging s false.

(** The polygons drawn in the spatial view. *)
Definition shownPolygons (s : Session) : list Polygon :=
  if isAnimating s then firstn (currentStep s) (stateRenderOrder s)
  else stateRenderOrder s.

Inductive Event :=
| AddRandomPolygon (r1 r2 r3 now : number) (colour : string)
| ClearScene
| AnimateRender
| TimerFires
| MouseDown (pos : Point)
| MouseMove (pos : Point)
| MouseUp.

(** The code that an event runs. *)
Definition handler (fuel : nat) (e : Event) (s : Session) : Session :=
  match e with
  | AddRandomPolygon r1 r2 r3 now colour => addRandomPolygon fuel r1 r2 r3 now colour s
  | ClearScene => clearScene s
  | AnimateRender => animateRender s
  | TimerFires => timerCallback s
  | MouseDown pos => handleMouseDown pos s
  | MouseMove pos => handleMouseMove pos s
  | MouseUp => handleMouseUp s
  end.

(** An event: its code, then the render and the effects it causes. *)
Definition handle (fuel : nat) (e : Event) (s : Session) : Session :=
  rerender s (handler fuel e s).

(** The handler runs to its end: its call of [insert], if any, returns. *)
Definition completes (fuel : nat) (e : Event) (s : Session) : Prop :=
  match e with
  | AddRandomPolygon r1 r2 r3 now colour =>
      snd (insert fuel (bspTree s) (randomSquare r1 r2 r3 now colour)) = Returned
  | _ => True
  end.

Fixpoint run (fuel : nat) (events : list Event) (s : Session) : Session :=
  match events with
  | [] => s
  | e :: rest => run fuel rest (handle fuel e s)
  end.

Fixpoint allComplete (fuel : nat) (events : list Event) (s : Session) : Prop :=
  match events with
  | [] => True
  | e :: rest => completes fuel e s /\ allComplete fuel rest (handle fuel e s)
  end.

(** What the panels show agrees with the tree. *)
Definition consistent (s : Session) : Prop :=
  stats s = mkStats (getHeight (root (bspTree s))) (countNodes (root (bspTree s))) /\
  stateRenderOrder s = renderOrder (bspTree s) (viewpoint s) /\
  (currentStep s <= length (stateRenderOrder s))%nat /\
  Forall (fun q => exists p, In p (statePolygons s) /\ pieceOf p q)
         (allPolygons (root (bspTree s))).

(** * Properties *)

(** ** Facts about binary64 comparison and subtraction

    Derived from the specification of the primitive operations
    ([FloatAxioms]) through the [spec_float] view of a float. *)

Lemma SFcompare_antisym (a b : spec_float) :
  SFcompare b a = option_map CompOpp (SFcompare a b).
Proof.
  destruct a as [sa|sa| |sa ma ea], b as [sb|sb| |sb mb eb]; simpl;
    try reflexivity;
    try (destruct sa; reflexivity); try (destruct sb; reflexivity);
    try (destruct sa, sb; reflexivity).
  destruct sa, sb; simpl; try reflexivity;
    rewrite (Z.compare_antisym ea eb);
    destruct (ea ?= eb)%Z; simpl; try reflexivity;
    change (Pos.compare_cont Eq mb ma) with (Pos.compare_cont (CompOpp Eq) mb ma);
    rewrite <- (Pos.compare_cont_antisym ma mb Eq);
    destruct (Pos.compare_cont Eq ma mb); reflexivity.
Qed.

Lemma leb_true_ltb_false (a b : float) : (a <=? b) = true -> (b <? a) = false.
Proof.
  rewrite leb_spec, ltb_spec. unfold SFleb, SFltb.
  rewrite (SFcompare_antisym (Prim2SF a) (Prim2SF b)).
  destruct (SFcompare (Prim2SF a) (Prim2SF b)) as [[ | | ]|]; simpl; congruence.
Qed.

Lemma Prim2SF_zero : Prim2SF 0 = S754_zero false.
Proof. reflexivity. Qed.

(** Beyond [+EPSILON] excludes beyond [-EPSILON]: the [else] of the counting
    loop never hides a back vertex. *)
Lemma front_not_back (d : float) : (EPSILON <? d) = true -> (d <? - EPSILON) = false.
Proof.
  rewrite !ltb_spec.
  assert (E1 : Prim2SF EPSILON = S754_finite false 7205759403792794 (-56))
    by (vm_compute; reflexivity).
  assert (E2 : Prim2SF (- EPSILON) = S754_finite true 7205759403792794 (-56))
    by (vm_compute; reflexivity).
  rewrite E1, E2. unfold SFltb.
  destruct (Prim2SF d) as [s|s| |s m e]; try destruct s; cbn [SFcompare];
    solve [discriminate | reflexivity].
Qed.

(** Comparison with zero: the sign cases of a distance. *)
Lemma leb_zero_l (d : float) : (0 <=? d) = (0 <? d) || (d =? 0).
Proof.
  rewrite leb_spec, ltb_spec, eqb_spec, Prim2SF_zero.
  unfold SFleb, SFltb, SFeqb.
  destruct (Prim2SF d) as [s|s| |s m e]; simpl; try reflexivity; destruct s; reflexivity.
Qed.

Lemma leb_zero_r (d : float) : (d <=? 0) = (d <? 0) || (d =? 0).
Proof.
  rewrite leb_spec, ltb_spec, eqb_spec, Prim2SF_zero.
  unfold SFleb, SFltb, SFeqb.
  destruct (Prim2SF d) as [s|s| |s m e]; simpl; try reflexivity; destruct s; reflexivity.
Qed.

(** Exactly one of: positive, negative, zero, NaN. *)
Lemma sign_cases (d : float) :
  ((0 <? d) = true /\ (d <? 0) = false /\ (d =? 0) = false /\ is_nan d = false) \/
  ((0 <? d) = false /\ (d <? 0) = true /\ (d =? 0) = false /\ is_nan d = false) \/
  ((0 <? d) = false /\ (d <? 0) = false /\ (d =? 0) = true /\ is_nan d = false) \/
  ((0 <? d) = false /\ (d <? 0) = false /\ (d =? 0) = false /\ is_nan d = true).
Proof.
  unfold is_nan. rewrite !ltb_spec, !eqb_spec, Prim2SF_zero.
  unfold SFltb, SFeqb.
  destruct (Prim2SF d) as [s|s| |s m e]; simpl.
  - right; right; left; auto.
  - destruct s; [right; left | left]; auto.
  - right; right; right; auto.
  - assert (Hm : Pos.compare_cont Eq m m = Eq) by apply Pos.compare_cont_refl.
    destruct s; rewrite Z.compare_refl, Hm; simpl; [right; left | left]; auto.
Qed.

(** A finite value minus itself is [+0]. *)
Lemma sub_diag_finite (v : float) : is_finite v = true -> v - v = 0.
Proof.
  intros Hfin. apply Prim2SF_inj. rewrite sub_spec, Prim2SF_zero.
  unfold is_finite, is_nan, is_infinity in Hfin.
  rewrite !eqb_spec, abs_spec in Hfin.
  assert (E : Prim2SF infinity = S754_infinity false) by (vm_compute; reflexivity).
  rewrite E in Hfin. clear E.
  unfold SF64sub, SFsub.
  destruct (Prim2SF v) as [s|s| |s m e]; try destruct s; try discriminate Hfin;
    try reflexivity.
  all: rewrite Z.min_id, Z.sub_diag; reflexivity.
Qed.

(** ** The three-square scene *)

(** C1. Inserting square A (id 1), then B (id 2), then C (id 3), each call
    returning normally whatever recursion budget it is given: A becomes the
    root with plane point (0,0) and normal (0,1); B classifies FRONT and is
    installed as the root's front child; C classifies BACK and is installed as
    its back child; the viewpoint (5,50) is at distance 50 on the front side,
    and the traversal emits the identifiers in the order 3, 1, 2. *)
Theorem scene_painter_order (fuel : nat) :
  let rootOnly := mkTree (Some (leaf partitionA squareA)) in
  let withB := mkTree (Some (Node partitionA (Some (leaf partitionB squareB)) None [squareA])) in
  insert (S fuel) emptyTree squareA = (rootOnly, Returned) /\
  classifyPolygon squareB partitionA = FRONT /\
  insert (S fuel) rootOnly squareB = (withB, Returned) /\
  classifyPolygon squareC partitionA = BACK /\
  insert (S fuel) withB squareC = (sceneTree, Returned) /\
  pointToPlaneDistance (mkPoint 5 50) partitionA = 50 /\
  map id (renderOrder sceneTree (mkPoint 5 50)) = [3; 1; 2] /\
  getHeight (root sceneTree) = 2%nat /\ countNodes (root sceneTree) = 3%nat.
Proof.
  cbv zeta. repeat split; vm_compute; reflexivity.
Qed.

(** ** Classification *)

Lemma classifyStep_counts (part : Partition) (fc bc : nat) (pt : Point) :
  classifyStep part (fc, bc) pt =
  (if isFront part pt then S fc else fc, if isBack part pt then S bc else bc).
Proof.
  unfold classifyStep, isFront, isBack.
  destruct (EPSILON <? pointToPlaneDistance pt part) eqn:Hf.
  - now rewrite (front_not_back _ Hf).
  - now destruct (pointToPlaneDistance pt part <? - EPSILON).
Qed.

Lemma classify_fold (part : Partition) (pts : list Point) (fc bc : nat) :
  fold_left (classifyStep part) pts (fc, bc) =
  ((fc + length (filter (isFront part) pts))%nat,
   (bc + length (filter (isBack part) pts))%nat).
Proof.
  revert fc bc. induction pts as [|pt pts IH]; intros fc bc; cbn [fold_left filter].
  - cbn [length]. f_equal; lia.
  - rewrite classifyStep_counts, IH.
    destruct (isFront part pt), (isBack part pt); cbn [length]; f_equal; lia.
Qed.

Lemma classifyCounts_filter (polygon : Polygon) (part : Partition) :
  classifyCounts polygon part =
  (length (filter (isFront part) (points polygon)),
   length (filter (isBack part) (points polygon))).
Proof. unfold classifyCounts. now rewrite classify_fold. Qed.

Lemma classifyPolygon_of_counts (polygon : Polygon) (part : Partition) :
  classifyPolygon polygon part =
  fourWayTable (fst (classifyCounts polygon part)) (snd (classifyCounts polygon part)).
Proof.
  unfold classifyPolygon.
  destruct (classifyCounts polygon part) as [[|fc] [|bc]]; reflexivity.
Qed.

Lemma inBand_neither (part : Partition) (pt : Point) :
  inBand part pt = true -> isFront part pt = false /\ isBack part pt = false.
Proof.
  unfold inBand, isFront, isBack. intros H.
  apply andb_true_iff in H as [Hlo Hhi].
  split; now apply leb_true_ltb_false.
Qed.

Lemma filter_none {A : Type} (f : A -> bool) (l : list A) :
  (forall a, In a l -> f a = false) -> filter f l = [].
Proof.
  induction l as [|a l IH]; intros H; simpl; [reflexivity|].
  rewrite (H a (or_introl eq_refl)). apply IH. intros b Hb. apply H. now right.
Qed.

(** C2. [classifyPolygon] counts as front the vertices whose signed distance
    is strictly greater than EPSILON and as back those strictly less than
    -EPSILON, and its answer is the four-way table applied to these two
    counts; a polygon all of whose vertices lie within the epsilon band is
    COPLANAR. *)
Theorem classifyPolygon_table (polygon : Polygon) (part : Partition) :
  let frontCount := length (filter (isFront part) (points polygon)) in
  let backCount := length (filter (isBack part) (points polygon)) in
  classifyCounts polygon part = (frontCount, backCount) /\
  classifyPolygon polygon part = fourWayTable frontCount backCount /\
  (forallb (inBand part) (points polygon) = true ->
   classifyPolygon polygon part = COPLANAR).
Proof.
  cbv zeta. split; [apply classifyCounts_filter|]. split.
  - rewrite classifyPolygon_of_counts, classifyCounts_filter. reflexivity.
  - intros Hband. rewrite forallb_forall in Hband.
    rewrite classifyPolygon_of_counts, classifyCounts_filter. simpl.
    rewrite !filter_none; [reflexivity| |];
      intros pt Hin; now destruct (inBand_neither part pt (Hband pt Hin)).
Qed.

Lemma classifyPolygon_table_witness :
  forallb (inBand partitionA) (points nearPlane) = true /\
  classifyPolygon nearPlane partitionA = COPLANAR.
Proof.
  split; [vm_compute; reflexivity|].
  apply (classifyPolygon_table nearPlane partitionA). vm_compute. reflexivity.
Defined.

(** ** Clipping: how many vertices the two fragments receive *)

Lemma map_nth_seq {A : Type} (l : list A) (d : A) :
  map (fun i => nth i l d) (seq 0 (length l)) = l.
Proof.
  induction l as [|a l IH]; [reflexivity|].
  cbn [length seq map nth]. f_equal.
  rewrite <- seq_shift, map_map. exact IH.
Qed.

Lemma filter_indices {A : Type} (f : A -> bool) (l : list A) (d : A) :
  length (filter (fun i => f (nth i l d)) (seq 0 (length l))) = length (filter f l).
Proof.
  assert (Hmap : forall idx,
             length (filter (fun i => f (nth i l d)) idx) =
             length (filter f (map (fun i => nth i l d) idx))).
  { induction idx as [|i idx IH]; [reflexivity|].
    cbn [map filter]. destruct (f (nth i l d)); cbn [length]; now rewrite IH. }
  now rewrite Hmap, map_nth_seq.
Qed.

Lemma splitStep_length (pts : list Point) (part : Partition)
    (fp bp : list Point) (i : nat) :
  let r := splitStep pts part (fp, bp) i in
  (length (fst r) + length (snd r) =
   length fp + length bp
   + (if frontSide part (nth i pts origin) then 1 else 0)
   + (if backSide part (nth i pts origin) then 1 else 0)
   + 2 * (if edgeCrosses pts part i then 1 else 0))%nat.
Proof.
  unfold splitStep, edgeCrosses, vertexDistance, frontSide, backSide. cbv zeta.
  destruct (0 <=? pointToPlaneDistance (nth i pts origin) part);
    destruct (pointToPlaneDistance (nth i pts origin) part <=? 0);
    destruct (crosses _ _); cbn [fst snd]; rewrite ?length_app; cbn [length]; lia.
Qed.

Lemma splitFold_length (pts : list Point) (part : Partition) (idx : list nat)
    (fp bp : list Point) :
  let r := fold_left (splitStep pts part) idx (fp, bp) in
  (length (fst r) + length (snd r) =
   length fp + length bp
   + length (filter (fun i => frontSide part (nth i pts origin)) idx)
   + length (filter (fun i => backSide part (nth i pts origin)) idx)
   + 2 * length (filter (edgeCrosses pts part) idx))%nat.
Proof.
  cbv zeta. revert fp bp. induction idx as [|i idx IH]; intros fp bp.
  - cbn [fold_left filter length fst snd]. lia.
  - cbn [fold_left filter].
    pose proof (splitStep_length pts part fp bp i) as Hstep. cbv zeta in Hstep.
    destruct (splitStep pts part (fp, bp) i) as [fp1 bp1]. cbn [fst snd] in Hstep.
    rewrite IH.
    destruct (frontSide part (nth i pts origin));
      destruct (backSide part (nth i pts origin));
      destruct (edgeCrosses pts part i); cbn [length]; lia.
Qed.

(** Each vertex is on the front side, on the back side, on both (exactly on
    the plane) or on neither (NaN distance). *)
Lemma sides_count (part : Partition) (pts : list Point) :
  (length (filter (frontSide part) pts) + length (filter (backSide part) pts)
   + length (filter (nanDistance part) pts)
   = length pts + length (filter (onPlane part) pts))%nat.
Proof.
  induction pts as [|pt pts IH]; [reflexivity|].
  cbn [filter]. unfold frontSide at 1, backSide at 1, nanDistance at 1, onPlane at 1.
  rewrite leb_zero_l, leb_zero_r.
  destruct (sign_cases (pointToPlaneDistance pt part))
    as [(-> & -> & -> & ->)|[(-> & -> & -> & ->)|[(-> & -> & -> & ->)|(-> & -> & -> & ->)]]];
    cbn [orb length]; lia.
Qed.

Lemma splitLists_length (polygon : Polygon) (part : Partition) :
  (length (fst (splitLists polygon part)) + length (snd (splitLists polygon part))
   + nanVertices polygon part
   = length (points polygon) + onPlaneVertices polygon part
     + 2 * crossingEdges polygon part)%nat.
Proof.
  unfold splitLists, nanVertices, onPlaneVertices, crossingEdges.
  pose proof (splitFold_length (points polygon) part
                (seq 0 (length (points polygon))) [] []) as H.
  cbv zeta in H. rewrite H. clear H.
  rewrite (filter_indices (frontSide part)), (filter_indices (backSide part)).
  pose proof (sides_count part (points polygon)). cbn [length]. lia.
Qed.

Lemma fragment_Some (polygon : Polygon) (pts : list Point) (f : Polygon) :
  fragment polygon pts = Some f ->
  points f = pts /\ (3 <= length pts)%nat /\ id f = id polygon /\ color f = color polygon.
Proof.
  unfold fragment. destruct (3 <=? length pts)%nat eqn:H; [|discriminate].
  intros [= <-]. apply Nat.leb_le in H. auto.
Qed.

Lemma fragment_None (polygon : Polygon) (pts : list Point) :
  fragment polygon pts = None <-> (length pts < 3)%nat.
Proof.
  unfold fragment. destruct (3 <=? length pts)%nat eqn:H.
  - apply Nat.leb_le in H. split; [discriminate | lia].
  - apply Nat.leb_gt in H. split; auto.
Qed.

Lemma splitPolygon_fragments (polygon : Polygon) (part : Partition) :
  splitPolygon polygon part =
  (fragment polygon (fst (splitLists polygon part)),
   fragment polygon (snd (splitLists polygon part))).
Proof. unfold splitPolygon. now destruct (splitLists polygon part). Qed.

(** C3, as stated, fails: the square is SPANNING, two of its edges cross the
    plane, both fragments are returned, and together they hold 8 vertices,
    not 4 + 2: each intersection point is appended to both lists. *)
Lemma splitPolygon_count_counterexample :
  classifyPolygon crossedSquare partitionA = SPANNING /\
  crossingEdges crossedSquare partitionA = 2%nat /\
  exists f b,
    splitPolygon crossedSquare partitionA = (Some f, Some b) /\
    (length (points f) + length (points b) = 8)%nat /\
    (length (points f) + length (points b)
     <> length (points crossedSquare) + crossingEdges crossedSquare partitionA)%nat.
Proof.
  split; [vm_compute; reflexivity|]. split; [vm_compute; reflexivity|].
  eexists _, _. split; [vm_compute; reflexivity|].
  split; [reflexivity|]. vm_compute. discriminate.
Qed.

(** C3, amended. For every polygon and partition (SPANNING or not): the two
    vertex lists accumulated by [splitPolygon] hold together the original
    vertices, once more each vertex lying exactly on the plane, twice each
    plane-crossing edge, less the vertices whose distance is NaN; when both
    fragments are returned this is their combined vertex count; a side is
    returned exactly when its list has at least 3 vertices, with the
    identifier and colour of the original, and is absent otherwise. *)
Theorem splitPolygon_vertex_count (polygon : Polygon) (part : Partition) :
  let frontPoints := fst (splitLists polygon part) in
  let backPoints := snd (splitLists polygon part) in
  let total := (length (points polygon) + onPlaneVertices polygon part
                + 2 * crossingEdges polygon part)%nat in
  (length frontPoints + length backPoints + nanVertices polygon part = total)%nat /\
  (forall f b, splitPolygon polygon part = (Some f, Some b) ->
     (length (points f) + length (points b) + nanVertices polygon part = total)%nat) /\
  (forall f, fst (splitPolygon polygon part) = Some f ->
     points f = frontPoints /\ (3 <= length (points f))%nat /\
     id f = id polygon /\ color f = color polygon) /\
  (forall b, snd (splitPolygon polygon part) = Some b ->
     points b = backPoints /\ (3 <= length (points b))%nat /\
     id b = id polygon /\ color b = color polygon) /\
  (fst (splitPolygon polygon part) = None <-> (length frontPoints < 3)%nat) /\
  (snd (splitPolygon polygon part) = None <-> (length backPoints < 3)%nat).
Proof.
  cbv zeta. rewrite splitPolygon_fragments. cbn [fst snd].
  pose proof (splitLists_length polygon part) as Hlen.
  split; [exact Hlen|]. split.
  - intros f b [= Hf Hb].
    apply fragment_Some in Hf as (-> & _), Hb as (-> & _). exact Hlen.
  - split; [|split; [|split; apply fragment_None]].
    + intros f Hf. apply fragment_Some in Hf as (Hp & Hl & Hi & Hc).
      rewrite Hp. auto.
    + intros b Hb. apply fragment_Some in Hb as (Hp & Hl & Hi & Hc).
      rewrite Hp. auto.
Qed.

Lemma splitPolygon_vertex_count_witness :
  exists f b,
    splitPolygon crossedSquare partitionA = (Some f, Some b) /\
    (length (points f) + length (points b) + nanVertices crossedSquare partitionA
     = length (points crossedSquare) + onPlaneVertices crossedSquare partitionA
       + 2 * crossingEdges crossedSquare partitionA)%nat /\
    (3 <= length (points f))%nat.
Proof.
  pose proof (splitPolygon_vertex_count crossedSquare partitionA) as H.
  cbv zeta in H. destruct H as (_ & Hboth & Hfront & _).
  eexists _, _. split; [vm_compute; reflexivity|]. split.
  - apply Hboth. vm_compute. reflexivity.
  - eapply Hfront. vm_compute. reflexivity.
Defined.

(** ** Traversal *)

(** The side rule of [_traverseHelper], for any callback. *)
Lemma _traverseHelper_Some {S : Type} (callback : BSPNode -> S -> S)
    (node : BSPNode) (viewpoint : Point) (s : S) :
  _traverseHelper callback (Some node) viewpoint s =
  if 0 <? pointToPlaneDistance viewpoint (partition node)
  then _traverseHelper callback (front node) viewpoint
         (callback node (_traverseHelper callback (back node) viewpoint s))
  else _traverseHelper callback (back node) viewpoint
         (callback node (_traverseHelper callback (front node) viewpoint s)).
Proof. destruct node as [part f b ps]. reflexivity. Qed.

Lemma allNodes_Some (node : BSPNode) :
  allNodes (Some node) = node :: allNodes (front node) ++ allNodes (back node).
Proof. destruct node as [part f b ps]. reflexivity. Qed.

Lemma countNodes_Some (node : BSPNode) :
  countNodes (Some node) = (1 + countNodes (front node) + countNodes (back node))%nat.
Proof. destruct node as [part f b ps]. reflexivity. Qed.

(** Induction over [BSPNode | null] in the shape of the source's recursions. *)
Lemma subtree_ind (P : option BSPNode -> Prop) :
  P None ->
  (forall node, P (front node) -> P (back node) -> P (Some node)) ->
  forall node, P node.
Proof.
  intros Hnone Hsome [n|]; [|exact Hnone].
  induction n as [part f b ps IHf IHb] using BSPNode_nested_ind.
  apply Hsome; cbn [front back].
  - destruct f; [exact IHf | exact Hnone].
  - destruct b; [exact IHb | exact Hnone].
Qed.

Lemma record_eq (node : BSPNode) (log : list BSPNode) : record node log = log ++ [node].
Proof. reflexivity. Qed.

(** The recording callback only appends: the log so far is a prefix. *)
Lemma record_log (viewpoint : Point) (node : option BSPNode) :
  forall log, _traverseHelper record node viewpoint log = log ++ visitOrder node viewpoint.
Proof.
  unfold visitOrder.
  induction node as [|n IHf IHb] using subtree_ind; intros log.
  - cbn. now rewrite app_nil_r.
  - rewrite !_traverseHelper_Some.
    destruct (0 <? pointToPlaneDistance viewpoint (partition n)).
    + rewrite (IHf (record n _)), (IHb log).
      rewrite (IHf (record n (_traverseHelper record (back n) viewpoint []))).
      rewrite !record_eq. cbn [app]. now rewrite !app_assoc.
    + rewrite (IHb (record n _)), (IHf log).
      rewrite (IHb (record n (_traverseHelper record (front n) viewpoint []))).
      rewrite !record_eq. cbn [app]. now rewrite !app_assoc.
Qed.

Lemma visitOrder_Some (node : BSPNode) (viewpoint : Point) :
  visitOrder (Some node) viewpoint =
  if 0 <? pointToPlaneDistance viewpoint (partition node)
  then visitOrder (back node) viewpoint ++ [node] ++ visitOrder (front node) viewpoint
  else visitOrder (front node) viewpoint ++ [node] ++ visitOrder (back node) viewpoint.
Proof.
  unfold visitOrder at 1. rewrite _traverseHelper_Some.
  destruct (0 <? pointToPlaneDistance viewpoint (partition node));
    rewrite record_log, record_eq, <- app_assoc; reflexivity.
Qed.

(** Any callback is run over the recorded sequence, in that order. *)
Lemma traverse_fold {S : Type} (callback : BSPNode -> S -> S) (viewpoint : Point)
    (node : option BSPNode) :
  forall s, _traverseHelper callback node viewpoint s =
            fold_left (fun acc n => callback n acc) (visitOrder node viewpoint) s.
Proof.
  induction node as [|n IHf IHb] using subtree_ind; intros s; [reflexivity|].
  rewrite _traverseHelper_Some, visitOrder_Some.
  destruct (0 <? pointToPlaneDistance viewpoint (partition n));
    rewrite !fold_left_app; cbn [fold_left]; now rewrite IHf, IHb.
Qed.

Lemma visitOrder_perm (viewpoint : Point) (node : option BSPNode) :
  Permutation (visitOrder node viewpoint) (allNodes node).
Proof.
  induction node as [|n IHf IHb] using subtree_ind; [constructor|].
  rewrite visitOrder_Some, allNodes_Some.
  destruct (0 <? pointToPlaneDistance viewpoint (partition n)).
  - rewrite IHf, IHb. cbn [app]. symmetry.
    rewrite Permutation_app_comm. apply Permutation_middle.
  - rewrite IHf, IHb. cbn [app]. symmetry. apply Permutation_middle.
Qed.

Lemma allNodes_length (node : option BSPNode) : length (allNodes node) = countNodes node.
Proof.
  induction node as [|n IHf IHb] using subtree_ind; [reflexivity|].
  rewrite allNodes_Some, countNodes_Some. cbn [length].
  rewrite length_app, IHf, IHb. lia.
Qed.

Lemma visitAddresses_Some (node : BSPNode) (viewpoint : Point) :
  visitAddresses (Some node) viewpoint =
  if 0 <? pointToPlaneDistance viewpoint (partition node)
  then map (cons Back) (visitAddresses (back node) viewpoint) ++ [[]]
       ++ map (cons Front) (visitAddresses (front node) viewpoint)
  else map (cons Front) (visitAddresses (front node) viewpoint) ++ [[]]
       ++ map (cons Back) (visitAddresses (back node) viewpoint).
Proof.
  destruct node as [part f b ps]. cbn [visitAddresses addressOrder partition front back].
  destruct f, b; reflexivity.
Qed.

(** The node found at the i-th address is the i-th node visited. *)
Lemma visitAddresses_nodes (viewpoint : Point) (node : option BSPNode) :
  map (nodeAt node) (visitAddresses node viewpoint) = map Some (visitOrder node viewpoint).
Proof.
  induction node as [|n IHf IHb] using subtree_ind; [reflexivity|].
  assert (HF : forall l, map (nodeAt (Some n)) (map (cons Front) l)
                         = map (nodeAt (front n)) l)
    by (intros l; rewrite map_map; apply map_ext; reflexivity).
  assert (HB : forall l, map (nodeAt (Some n)) (map (cons Back) l)
                         = map (nodeAt (back n)) l)
    by (intros l; rewrite map_map; apply map_ext; reflexivity).
  rewrite visitAddresses_Some, visitOrder_Some.
  destruct (0 <? pointToPlaneDistance viewpoint (partition n));
    rewrite !map_app, HF, HB, IHf, IHb; reflexivity.
Qed.

Lemma NoDup_below (sd : Side) (l : list (list Side)) :
  NoDup l -> NoDup (map (cons sd) l).
Proof.
  intros H. apply NoDup_map_NoDup_ForallPairs; [|exact H].
  intros a b _ _ E. now injection E.
Qed.

Lemma NoDup_three (l r : list (list Side)) :
  NoDup l -> NoDup r ->
  NoDup (map (cons Front) l ++ [[]] ++ map (cons Back) r) /\
  NoDup (map (cons Back) r ++ [[]] ++ map (cons Front) l).
Proof.
  intros Hl Hr. split.
  - apply NoDup_app; [now apply NoDup_below| |].
    + cbn [app]. constructor; [|now apply NoDup_below].
      intros Hin. apply in_map_iff in Hin as (a & E & _). discriminate.
    + intros a Ha Hin. apply in_map_iff in Ha as (a1 & <- & _).
      cbn [app] in Hin. destruct Hin as [E|Hin]; [discriminate|].
      apply in_map_iff in Hin as (a2 & E & _). discriminate.
  - apply NoDup_app; [now apply NoDup_below| |].
    + cbn [app]. constructor; [|now apply NoDup_below].
      intros Hin. apply in_map_iff in Hin as (a & E & _). discriminate.
    + intros a Ha Hin. apply in_map_iff in Ha as (a1 & <- & _).
      cbn [app] in Hin. destruct Hin as [E|Hin]; [discriminate|].
      apply in_map_iff in Hin as (a2 & E & _). discriminate.
Qed.

Lemma visitAddresses_NoDup (viewpoint : Point) (node : option BSPNode) :
  NoDup (visitAddresses node viewpoint).
Proof.
  induction node as [|n IHf IHb] using subtree_ind; [constructor|].
  rewrite visitAddresses_Some.
  destruct (NoDup_three _ _ IHf IHb) as [H1 H2].
  now destruct (0 <? pointToPlaneDistance viewpoint (partition n)).
Qed.

(** An address is reached exactly when there is a node at it. *)
Lemma visitAddresses_complete (viewpoint : Point) (node : option BSPNode) :
  forall address,
    In address (visitAddresses node viewpoint) <-> exists n, nodeAt node address = Some n.
Proof.
  induction node as [|n IHf IHb] using subtree_ind; intros address.
  - cbn. split; [contradiction|]. intros [n H]. destruct address; discriminate.
  - assert (Hiff : In address (map (cons Front) (visitAddresses (front n) viewpoint)
                              ++ [[]] ++ map (cons Back) (visitAddresses (back n) viewpoint))
                   <-> exists m, nodeAt (Some n) address = Some m).
    { rewrite in_app_iff. cbn [app In]. rewrite !in_map_iff. split.
      - intros [(a & <- & Ha)|[<-|(a & <- & Ha)]]; cbn [nodeAt child].
        + now apply IHf.
        + eauto.
        + now apply IHb.
      - destruct address as [|[|] rest]; cbn [nodeAt child]; intros Hm.
        + right. now left.
        + left. exists rest. split; [reflexivity|]. now apply IHf.
        + right. right. exists rest. split; [reflexivity|]. now apply IHb. }
    rewrite visitAddresses_Some.
    destruct (0 <? pointToPlaneDistance viewpoint (partition n)); [|exact Hiff].
    rewrite <- Hiff. rewrite !in_app_iff. cbn [app In]. tauto.
Qed.

(** C6. For every tree and viewpoint, the traversal invokes the callback once
    per node: the recorded sequence of visited nodes is a rearrangement of the
    list of all nodes of the tree, so its length is [countNodes]; it is read
    off a duplicate-free sequence of node addresses that contains exactly the
    addresses at which the tree has a node; any callback is applied along that
    sequence; and at each node the order follows the side rule (distance > 0:
    back subtree, node, front subtree; otherwise front subtree, node, back
    subtree). *)
Theorem traverse_visits_each_node_once (tree : BSPTree) (viewpoint : Point) :
  let visits := visitOrder (root tree) viewpoint in
  let addresses := visitAddresses (root tree) viewpoint in
  length visits = countNodes (root tree) /\
  Permutation visits (allNodes (root tree)) /\
  map (nodeAt (root tree)) addresses = map Some visits /\
  NoDup addresses /\
  (forall address, In address addresses <-> exists n, nodeAt (root tree) address = Some n) /\
  (forall (S : Type) (callback : BSPNode -> S -> S) (s : S),
      traverseFrontToBack callback tree viewpoint s =
      fold_left (fun acc n => callback n acc) visits s) /\
  (forall node,
      visitOrder (Some node) viewpoint =
      if 0 <? pointToPlaneDistance viewpoint (partition node)
      then visitOrder (back node) viewpoint ++ [node] ++ visitOrder (front node) viewpoint
      else visitOrder (front node) viewpoint ++ [node] ++ visitOrder (back node) viewpoint) /\
  (forall (S : Type) (callback : BSPNode -> S -> S) (node : BSPNode) (s : S),
      _traverseHelper callback (Some node) viewpoint s =
      if 0 <? pointToPlaneDistance viewpoint (partition node)
      then _traverseHelper callback (front node) viewpoint
             (callback node (_traverseHelper callback (back node) viewpoint s))
      else _traverseHelper callback (back node) viewpoint
             (callback node (_traverseHelper callback (front node) viewpoint s))).
Proof.
  cbv zeta. split; [|split; [|split; [|split; [|split; [|split; [|split]]]]]].
  - rewrite (Permutation_length (visitOrder_perm viewpoint (root tree))).
    apply allNodes_length.
  - apply visitOrder_perm.
  - apply visitAddresses_nodes.
  - apply visitAddresses_NoDup.
  - apply visitAddresses_complete.
  - intros S callback s. apply traverse_fold.
  - intros node. apply visitOrder_Some.
  - intros S callback node s. apply _traverseHelper_Some.
Qed.

Lemma logged_fold {S : Type} (callback : BSPNode -> S -> S) (l : list BSPNode) :
  forall (s : S) (log : list BSPNode),
    fold_left (fun acc n => logged callback n acc) l (s, log) =
    (fold_left (fun acc n => callback n acc) l s, log ++ l).
Proof.
  induction l as [|n l IH]; intros s log; cbn [fold_left].
  - now rewrite app_nil_r.
  - unfold logged at 2. cbn [fst snd]. rewrite IH, <- app_assoc. reflexivity.
Qed.

Lemma renderOrder_flat (tree : BSPTree) (viewpoint : Point) :
  renderOrder tree viewpoint = flat_map polygons (visitOrder (root tree) viewpoint).
Proof.
  unfold renderOrder, traverseFrontToBack. rewrite traverse_fold.
  generalize (visitOrder (root tree) viewpoint) as l.
  assert (H : forall l acc, fold_left (fun acc n => pushPolygons n acc) l acc
                            = acc ++ flat_map polygons l).
  { induction l as [|n l IH]; intros acc; cbn [fold_left flat_map].
    - now rewrite app_nil_r.
    - rewrite IH. unfold pushPolygons. now rewrite app_assoc. }
  intros l. apply (H l []).
Qed.

(** C8. Two successive traversals of the same tree from the same viewpoint
    hand the same sequence of nodes to the callback, whatever state the
    callback has accumulated in between; the traversal takes the tree as an
    input only. In particular the render order computed twice is the same. *)
Theorem traverse_twice_same_sequence (tree : BSPTree) (viewpoint : Point)
    (S : Type) (callback : BSPNode -> S -> S) (s : S) :
  let first := traverseFrontToBack (logged callback) tree viewpoint (s, []) in
  let second := traverseFrontToBack (logged callback) tree viewpoint (fst first, []) in
  snd first = snd second /\
  snd first = visitOrder (root tree) viewpoint /\
  fst first = traverseFrontToBack callback tree viewpoint s /\
  fst second = traverseFrontToBack callback tree viewpoint (fst first) /\
  renderOrder tree viewpoint = flat_map polygons (snd first) /\
  renderOrder tree viewpoint = flat_map polygons (snd second).
Proof.
  cbv zeta. unfold traverseFrontToBack.
  rewrite !(traverse_fold (logged callback)), !logged_fold. cbn [fst snd app].
  rewrite renderOrder_flat, <- !traverse_fold. repeat split; reflexivity.
Qed.

(** ** Insertion *)

Lemma _insertHelper_S (fuel : nat) (node : BSPNode) (polygon : Polygon) :
  _insertHelper (S fuel) node polygon =
  match classifyPolygon polygon (partition node) with
  | COPLANAR =>
      (Node (partition node) (front node) (back node) (polygons node ++ [polygon]), Returned)
  | FRONT =>
      match front node with
      | None =>
          match createPartition polygon with
          | Normal p =>
              (Node (partition node) (Some (leaf p polygon)) (back node) (polygons node),
               Returned)
          | Throw e => (node, Threw e)
          end
      | Some child =>
          (Node (partition node) (Some (fst (_insertHelper fuel child polygon)))
                (back node) (polygons node),
           snd (_insertHelper fuel child polygon))
      end
  | BACK =>
      match back node with
      | None =>
          match createPartition polygon with
          | Normal p =>
              (Node (partition node) (front node) (Some (leaf p polygon)) (polygons node),
               Returned)
          | Throw e => (node, Threw e)
          end
      | Some child =>
          (Node (partition node) (front node)
                (Some (fst (_insertHelper fuel child polygon))) (polygons node),
           snd (_insertHelper fuel child polygon))
      end
  | SPANNING =>
      let first :=
        match fst (splitPolygon polygon (partition node)) with
        | Some p => _insertHelper fuel node p
        | None => (node, Returned)
        end in
      match snd first with
      | Returned =>
          match snd (splitPolygon polygon (partition node)) with
          | Some p => _insertHelper fuel (fst first) p
          | None => (fst first, Returned)
          end
      | _ => first
      end
  end.
Proof.
  destruct node as [part f b ps]. cbn [_insertHelper partition front back polygons].
  destruct (classifyPolygon polygon part); try reflexivity.
  - destruct f as [child|]; [|reflexivity].
    now destruct (_insertHelper fuel child polygon).
  - destruct b as [child|]; [|reflexivity].
    now destruct (_insertHelper fuel child polygon).
  - destruct (splitPolygon polygon part) as [fr bk]. cbn [fst snd].
    destruct fr as [p|].
    + destruct (_insertHelper fuel (Node part f b ps) p) as [node1 o1]. cbn [fst snd].
      now destruct o1.
    + reflexivity.
Qed.

Lemma createPartition_Throw (polygon : Polygon) (e : JSError) :
  createPartition polygon = Throw e -> (length (points polygon) < 2)%nat.
Proof.
  unfold createPartition. destruct (points polygon) as [|p1 [|p2 rest]];
    cbn [length]; [lia | lia | discriminate].
Qed.

Lemma createPartition_Normal (polygon : Polygon) :
  (2 <= length (points polygon))%nat -> exists part, createPartition polygon = Normal part.
Proof.
  unfold createPartition. destruct (points polygon) as [|p1 [|p2 rest]];
    cbn [length]; [lia | lia | eauto].
Qed.

Lemma split_front_length (polygon : Polygon) (part : Partition) (f : Polygon) :
  fst (splitPolygon polygon part) = Some f -> (3 <= length (points f))%nat.
Proof.
  rewrite splitPolygon_fragments. cbn [fst]. intros H.
  apply fragment_Some in H as (-> & H & _). exact H.
Qed.

Lemma split_back_length (polygon : Polygon) (part : Partition) (b : Polygon) :
  snd (splitPolygon polygon part) = Some b -> (3 <= length (points b))%nat.
Proof.
  rewrite splitPolygon_fragments. cbn [snd]. intros H.
  apply fragment_Some in H as (-> & H & _). exact H.
Qed.

Lemma node_eta (node : BSPNode) :
  Node (partition node) (front node) (back node) (polygons node) = node.
Proof. now destruct node. Qed.

(** An insertion can only throw before it has changed anything, and only for
    a polygon with fewer than two vertices. *)
Lemma _insertHelper_throw (fuel : nat) :
  forall node polygon node' e,
    _insertHelper fuel node polygon = (node', Threw e) ->
    (length (points polygon) < 2)%nat /\ node' = node.
Proof.
  induction fuel as [|fuel IH]; intros node polygon node' e H; [discriminate|].
  rewrite _insertHelper_S in H.
  destruct (classifyPolygon polygon (partition node)).
  - destruct (front node) as [child|] eqn:Hf.
    + injection H as <- Ho.
      destruct (_insertHelper fuel child polygon) as [child' o] eqn:Hrec.
      cbn [fst snd] in *. subst o. apply IH in Hrec as [Hlen ->].
      split; [exact Hlen|]. rewrite <- Hf. apply node_eta.
    + destruct (createPartition polygon) eqn:Hcp; [discriminate|].
      inversion H; subst. split; [eapply createPartition_Throw; eauto | reflexivity].
  - destruct (back node) as [child|] eqn:Hb.
    + injection H as <- Ho.
      destruct (_insertHelper fuel child polygon) as [child' o] eqn:Hrec.
      cbn [fst snd] in *. subst o. apply IH in Hrec as [Hlen ->].
      split; [exact Hlen|]. rewrite <- Hb. apply node_eta.
    + destruct (createPartition polygon) eqn:Hcp; [discriminate|].
      inversion H; subst. split; [eapply createPartition_Throw; eauto | reflexivity].
  - discriminate.
  - cbv zeta in H.
    destruct (fst (splitPolygon polygon (partition node))) as [pf|] eqn:Hfr.
    + apply split_front_length in Hfr.
      destruct (_insertHelper fuel node pf) as [node1 o1] eqn:H1. cbn [fst snd] in H.
      destruct o1.
      * destruct (snd (splitPolygon polygon (partition node))) as [pb|] eqn:Hbk;
          [|discriminate].
        apply split_back_length in Hbk. apply IH in H as [Hlen _]. lia.
      * apply IH in H1 as [Hlen _]. lia.
      * discriminate.
    + cbn [fst snd] in H.
      destruct (snd (splitPolygon polygon (partition node))) as [pb|] eqn:Hbk;
        [|discriminate].
      apply split_back_length in Hbk. apply IH in H as [Hlen _]. lia.
Qed.

Lemma insert_throw (fuel : nat) (tree : BSPTree) (polygon : Polygon)
    (tree' : BSPTree) (e : JSError) :
  insert fuel tree polygon = (tree', Threw e) ->
  (length (points polygon) < 2)%nat /\ tree' = tree.
Proof.
  unfold insert. destruct tree as [[r|]]; cbn [root].
  - destruct (_insertHelper fuel r polygon) as [r' o] eqn:Hrec.
    intros [= <- ->]. apply _insertHelper_throw in Hrec as [Hlen ->]. auto.
  - destruct (createPartition polygon) eqn:Hcp; [discriminate|].
    intros H; inversion H; subst.
    split; [eapply createPartition_Throw; eauto | reflexivity].
Qed.

(** *** Properties of every node, and what an insertion may change *)

Lemma everyNode_unfold (P : BSPNode -> Prop) (node : BSPNode) :
  everyNode P node <->
  P node /\ everyNodeOf P (front node) /\ everyNodeOf P (back node).
Proof. destruct node as [part f b ps]. reflexivity. Qed.

Lemma extends_unfold (old new : BSPNode) :
  extends old new <->
  partition new = partition old /\
  (exists extra, polygons new = polygons old ++ extra) /\
  slotExtends (front old) (front new) /\
  slotExtends (back old) (back new).
Proof. destruct old as [part f b ps]. reflexivity. Qed.

Lemma extends_refl (node : BSPNode) : extends node node.
Proof.
  induction node as [part f b ps IHf IHb] using BSPNode_nested_ind.
  cbn [extends partition polygons front back].
  split; [reflexivity|]. split; [exists []; now rewrite app_nil_r|].
  split; [destruct f | destruct b]; auto.
Qed.

Lemma slotExtends_refl (node : option BSPNode) : slotExtends node node.
Proof. destruct node; [apply extends_refl | exact I]. Qed.

Lemma extends_trans (a : BSPNode) :
  forall b c, extends a b -> extends b c -> extends a c.
Proof.
  induction a as [part f bk ps IHf IHb] using BSPNode_nested_ind.
  intros b c Hab Hbc. apply extends_unfold in Hbc as (Hp & (e2 & He2) & Hf2 & Hb2).
  cbn [extends] in Hab |- *. destruct Hab as (Hp1 & (e1 & He1) & Hf1 & Hb1).
  split; [congruence|]. split.
  { exists (e1 ++ e2). rewrite He2, He1. now rewrite app_assoc. }
  split.
  - destruct f as [cf|]; [|exact I]. cbn [onChild] in IHf.
    destruct (front b) as [cb|]; [|contradiction]. cbn [slotExtends] in Hf2.
    destruct (front c) as [cc|]; [|contradiction]. eapply IHf; eauto.
  - destruct bk as [cf|]; [|exact I]. cbn [onChild] in IHb.
    destruct (back b) as [cb|]; [|contradiction]. cbn [slotExtends] in Hb2.
    destruct (back c) as [cc|]; [|contradiction]. eapply IHb; eauto.
Qed.

(** Read through addresses: every node of [old] is found in [new] at the same
    address, with the same partition and its polygons as a prefix. *)
Lemma extends_nodeAt (address : list Side) :
  forall old new n,
    slotExtends old new -> nodeAt old address = Some n ->
    exists n', nodeAt new address = Some n' /\
               partition n' = partition n /\
               exists extra, polygons n' = polygons n ++ extra.
Proof.
  induction address as [|sd rest IH]; intros old new n Hext Hat.
  - cbn [nodeAt] in *. subst old. cbn [slotExtends] in Hext.
    destruct new as [n'|]; [|contradiction].
    apply extends_unfold in Hext as (Hp & He & _). eauto.
  - cbn [nodeAt] in *. destruct old as [o|]; [|discriminate].
    cbn [slotExtends] in Hext. destruct new as [n'|]; [|contradiction].
    apply extends_unfold in Hext as (_ & _ & Hf & Hb).
    apply IH with (old := child sd o); [|exact Hat].
    destruct sd; assumption.
Qed.

Lemma _insertHelper_extends (fuel : nat) :
  forall node polygon, extends node (fst (_insertHelper fuel node polygon)).
Proof.
  induction fuel as [|fuel IH]; intros node polygon; [apply extends_refl|].
  rewrite _insertHelper_S.
  destruct (classifyPolygon polygon (partition node)).
  - destruct (front node) as [c|] eqn:Hf.
    + cbn [fst]. apply extends_unfold. cbn [partition polygons front back].
      split; [reflexivity|]. split; [exists []; now rewrite app_nil_r|].
      rewrite Hf. split; [apply IH | apply slotExtends_refl].
    + destruct (createPartition polygon); cbn [fst]; [|apply extends_refl].
      apply extends_unfold. cbn [partition polygons front back].
      split; [reflexivity|]. split; [exists []; now rewrite app_nil_r|].
      rewrite Hf. split; [exact I | apply slotExtends_refl].
  - destruct (back node) as [c|] eqn:Hb.
    + cbn [fst]. apply extends_unfold. cbn [partition polygons front back].
      split; [reflexivity|]. split; [exists []; now rewrite app_nil_r|].
      rewrite Hb. split; [apply slotExtends_refl | apply IH].
    + destruct (createPartition polygon); cbn [fst]; [|apply extends_refl].
      apply extends_unfold. cbn [partition polygons front back].
      split; [reflexivity|]. split; [exists []; now rewrite app_nil_r|].
      rewrite Hb. split; [apply slotExtends_refl | exact I].
  - cbn [fst]. apply extends_unfold. cbn [partition polygons front back].
    split; [reflexivity|]. split; [now exists [polygon]|].
    split; apply slotExtends_refl.
  - cbv zeta.
    set (first := match fst (splitPolygon polygon (partition node)) with
                  | Some p => _insertHelper fuel node p
                  | None => (node, Returned)
                  end).
    assert (Hfirst : extends node (fst first)).
    { subst first. destruct (fst (splitPolygon polygon (partition node)));
        [apply IH | apply extends_refl]. }
    destruct (snd first); try exact Hfirst.
    destruct (snd (splitPolygon polygon (partition node))); [|exact Hfirst].
    eapply extends_trans; [exact Hfirst | apply IH].
Qed.

Lemma insert_extends (fuel : nat) (tree : BSPTree) (polygon : Polygon) :
  slotExtends (root tree) (root (fst (insert fuel tree polygon))).
Proof.
  unfold insert. destruct tree as [[r|]]; cbn [root slotExtends]; [|exact I].
  pose proof (_insertHelper_extends fuel r polygon) as H.
  destruct (_insertHelper fuel r polygon) as [r' o]. exact H.
Qed.

Lemma _insertHelper_holds (fuel : nat) :
  forall node polygon,
    everyNode holdsPolygon node ->
    everyNode holdsPolygon (fst (_insertHelper fuel node polygon)).
Proof.
  induction fuel as [|fuel IH]; intros node polygon Hinv; [exact Hinv|].
  rewrite _insertHelper_S.
  pose proof Hinv as Hnode. apply everyNode_unfold in Hnode as (Hn & Hf & Hb).
  destruct (classifyPolygon polygon (partition node)).
  - destruct (front node) as [c|] eqn:Hfr.
    + cbn [fst]. apply everyNode_unfold. cbn [front back].
      split; [exact Hn|]. split; [apply IH; exact Hf | exact Hb].
    + destruct (createPartition polygon); cbn [fst]; [|exact Hinv].
      apply everyNode_unfold. cbn [front back].
      split; [exact Hn|]. split; [|exact Hb].
      cbn. repeat split. discriminate.
  - destruct (back node) as [c|] eqn:Hbk.
    + cbn [fst]. apply everyNode_unfold. cbn [front back].
      split; [exact Hn|]. split; [exact Hf | apply IH; exact Hb].
    + destruct (createPartition polygon); cbn [fst]; [|exact Hinv].
      apply everyNode_unfold. cbn [front back].
      split; [exact Hn|]. split; [exact Hf|].
      cbn. repeat split. discriminate.
  - cbn [fst]. apply everyNode_unfold. cbn [front back].
    split; [|split; assumption].
    unfold holdsPolygon. cbn [polygons]. intros E. now apply app_eq_nil in E as [_ E].
  - cbv zeta.
    set (first := match fst (splitPolygon polygon (partition node)) with
                  | Some p => _insertHelper fuel node p
                  | None => (node, Returned)
                  end).
    assert (Hfirst : everyNode holdsPolygon (fst first)).
    { subst first. destruct (fst (splitPolygon polygon (partition node)));
        [apply IH; exact Hinv | exact Hinv]. }
    destruct (snd first); try exact Hfirst.
    destruct (snd (splitPolygon polygon (partition node))); [|exact Hfirst].
    apply IH. exact Hfirst.
Qed.

Lemma insert_holds (fuel : nat) (tree : BSPTree) (polygon : Polygon) :
  everyNodeOf holdsPolygon (root tree) ->
  everyNodeOf holdsPolygon (root (fst (insert fuel tree polygon))).
Proof.
  unfold insert. destruct tree as [[r|]]; cbn [root everyNodeOf].
  - intros H. pose proof (_insertHelper_holds fuel r polygon H) as H'.
    destruct (_insertHelper fuel r polygon) as [r' o]. exact H'.
  - intros _. destruct (createPartition polygon); cbn; [|exact I].
    repeat split. discriminate.
Qed.

(** C9. In every tree built solely by calls of [insert], every node holds at
    least one polygon: a node is created holding exactly the polygon that
    caused it, an insertion only appends to the collection of an existing node,
    and [insert] preserves the invariant however it completes. *)
Theorem insert_keeps_nodes_nonempty :
  (forall tree, built tree -> everyNodeOf holdsPolygon (root tree)) /\
  (forall fuel tree polygon,
      everyNodeOf holdsPolygon (root tree) ->
      everyNodeOf holdsPolygon (root (fst (insert fuel tree polygon)))) /\
  (forall part polygon, polygons (leaf part polygon) = [polygon]) /\
  (forall fuel node polygon,
      exists extra, polygons (fst (_insertHelper fuel node polygon)) = polygons node ++ extra).
Proof.
  split; [|split; [|split]].
  - intros tree Hb. induction Hb as [|fuel tree polygon Hb IH]; [exact I|].
    now apply insert_holds.
  - intros fuel tree polygon. apply insert_holds.
  - reflexivity.
  - intros fuel node polygon.
    pose proof (_insertHelper_extends fuel node polygon) as H.
    apply extends_unfold in H as (_ & H & _). exact H.
Qed.

Lemma insert_keeps_nodes_nonempty_witness :
  built sceneTree /\ everyNodeOf holdsPolygon (root sceneTree).
Proof.
  assert (Hb : built sceneTree).
  { change sceneTree with
      (fst (insert 1 (fst (insert 1 (fst (insert 1 emptyTree squareA)) squareB)) squareC)).
    repeat constructor. }
  split; [exact Hb|].
  exact (proj1 insert_keeps_nodes_nonempty sceneTree Hb).
Defined.

(** C10. [insert] leaves every node that existed before at its address, with
    its partition unchanged and its polygons kept as a prefix of its
    collection; no filled child slot is emptied or given another node. What
    it adds are polygons appended to existing collections and nodes placed in
    slots that were empty; on the empty tree the new root is a leaf holding
    the polygon. This holds however the insertion completes. *)
Theorem insert_frame (fuel : nat) (tree : BSPTree) (polygon : Polygon) :
  let tree' := fst (insert fuel tree polygon) in
  slotExtends (root tree) (root tree') /\
  (forall address n,
      nodeAt (root tree) address = Some n ->
      exists n', nodeAt (root tree') address = Some n' /\
                 partition n' = partition n /\
                 exists extra, polygons n' = polygons n ++ extra) /\
  (root tree = None ->
   tree' = tree \/ exists part, tree' = mkTree (Some (leaf part polygon))).
Proof.
  cbv zeta. split; [apply insert_extends|]. split.
  - intros address n Hat.
    exact (extends_nodeAt address _ _ n (insert_extends fuel tree polygon) Hat).
  - intros Hroot. unfold insert. rewrite Hroot.
    destruct (createPartition polygon) as [part|e]; cbn [fst]; eauto.
Qed.

Lemma insert_frame_witness :
  exists n',
    nodeAt (root (fst (insert 2 sceneTree squareB))) [Front] = Some n' /\
    partition n' = partitionB /\
    exists extra, polygons n' = [squareB] ++ extra.
Proof.
  pose proof (insert_frame 2 sceneTree squareB) as H. cbv zeta in H.
  destruct H as (_ & Hat & _).
  exact (Hat [Front] (leaf partitionB squareB) eq_refl).
Defined.

(** *** Termination *)

Lemma heightNode_unfold (node : BSPNode) :
  heightNode node = S (Nat.max (getHeight (front node)) (getHeight (back node))).
Proof. destruct node as [part f b ps]. reflexivity. Qed.

(** The result of a call that completes does not depend on the budget. *)
Lemma _insertHelper_fuel_mono (fuel : nat) :
  forall node polygon fuel',
    snd (_insertHelper fuel node polygon) <> Diverged ->
    (fuel <= fuel')%nat ->
    _insertHelper fuel' node polygon = _insertHelper fuel node polygon.
Proof.
  induction fuel as [|fuel IH]; intros node polygon fuel' Hnd Hle;
    [now contradiction Hnd|].
  destruct fuel' as [|fuel']; [lia|]. apply le_S_n in Hle.
  rewrite !_insertHelper_S in *.
  destruct (classifyPolygon polygon (partition node)); try reflexivity.
  - destruct (front node) as [c|]; [|reflexivity].
    cbn [snd] in Hnd. now rewrite (IH c polygon fuel' Hnd Hle).
  - destruct (back node) as [c|]; [|reflexivity].
    cbn [snd] in Hnd. now rewrite (IH c polygon fuel' Hnd Hle).
  - cbv zeta in *.
    destruct (fst (splitPolygon polygon (partition node))) as [pf|].
    + destruct (snd (_insertHelper fuel node pf)) eqn:Ho1.
      * rewrite (IH node pf fuel') by (congruence || assumption). rewrite Ho1.
        destruct (snd (splitPolygon polygon (partition node))) as [pb|];
          [|reflexivity].
        now apply IH.
      * rewrite (IH node pf fuel') by (congruence || assumption). now rewrite Ho1.
      * rewrite Ho1 in Hnd. now contradiction Hnd.
    + cbn [fst snd] in *.
      destruct (snd (splitPolygon polygon (partition node))) as [pb|];
        [|reflexivity].
      now apply IH.
Qed.

(** A polygon that a node sends to one side is stored in that subtree, or
    becomes a new leaf when the slot is empty. *)
Lemma insert_directed_front (part : Partition) (f : option BSPNode) (q : Polygon) :
  (2 <= length (points q))%nat ->
  classifyPolygon q part = FRONT ->
  (forall c, f = Some c ->
     exists c', forall fuel, (2 * heightNode c <= fuel)%nat ->
                             _insertHelper fuel c q = (c', Returned)) ->
  exists f', forall b ps fuel,
      (S (2 * getHeight f) <= fuel)%nat ->
      _insertHelper fuel (Node part f b ps) q = (Node part (Some f') b ps, Returned).
Proof.
  intros Hlen Hc Hchild. destruct f as [c|].
  - destruct (Hchild c eq_refl) as [c' Hc']. exists c'. intros b ps fuel Hfuel.
    destruct fuel as [|fuel]; [lia|]. cbn [getHeight] in Hfuel.
    rewrite _insertHelper_S. cbn [partition front back polygons].
    rewrite Hc, Hc' by lia. reflexivity.
  - destruct (createPartition_Normal q Hlen) as [np Hnp]. exists (leaf np q).
    intros b ps fuel Hfuel. destruct fuel as [|fuel]; [lia|].
    rewrite _insertHelper_S. cbn [partition front back polygons].
    rewrite Hc, Hnp. reflexivity.
Qed.

Lemma insert_directed_back (part : Partition) (b : option BSPNode) (q : Polygon) :
  (2 <= length (points q))%nat ->
  classifyPolygon q part = BACK ->
  (forall c, b = Some c ->
     exists c', forall fuel, (2 * heightNode c <= fuel)%nat ->
                             _insertHelper fuel c q = (c', Returned)) ->
  exists b', forall f ps fuel,
      (S (2 * getHeight b) <= fuel)%nat ->
      _insertHelper fuel (Node part f b ps) q = (Node part f (Some b') ps, Returned).
Proof.
  intros Hlen Hc Hchild. destruct b as [c|].
  - destruct (Hchild c eq_refl) as [c' Hc']. exists c'. intros f ps fuel Hfuel.
    destruct fuel as [|fuel]; [lia|]. cbn [getHeight] in Hfuel.
    rewrite _insertHelper_S. cbn [partition front back polygons].
    rewrite Hc, Hc' by lia. reflexivity.
  - destruct (createPartition_Normal q Hlen) as [np Hnp]. exists (leaf np q).
    intros f ps fuel Hfuel. destruct fuel as [|fuel]; [lia|].
    rewrite _insertHelper_S. cbn [partition front back polygons].
    rewrite Hc, Hnp. reflexivity.
Qed.

Lemma insert_coplanar (part : Partition) (f b : option BSPNode) (ps : list Polygon)
    (q : Polygon) (fuel : nat) :
  classifyPolygon q part = COPLANAR ->
  _insertHelper (S fuel) (Node part f b ps) q = (Node part f b (ps ++ [q]), Returned).
Proof.
  intros Hc. rewrite _insertHelper_S. cbn [partition front back polygons].
  now rewrite Hc.
Qed.

Lemma settles_child (c : option BSPNode) (q : Polygon)
    (P : BSPNode -> Prop) :
  onChild P c ->
  (forall n, P n -> settles n q = true ->
     exists n', forall fuel, (2 * heightNode n <= fuel)%nat ->
                             _insertHelper fuel n q = (n', Returned)) ->
  match c with Some c' => settles c' q | None => true end = true ->
  forall n, c = Some n ->
    exists n', forall fuel, (2 * heightNode n <= fuel)%nat ->
                            _insertHelper fuel n q = (n', Returned).
Proof.
  intros Hon HP Hs n ->. cbn [onChild] in Hon. now apply HP.
Qed.

(** When every split separates, the call returns within a recursion depth of
    twice the node's height: a split costs one level before each descent. *)
Lemma _insertHelper_settles (node : BSPNode) :
  forall polygon,
    (2 <= length (points polygon))%nat ->
    settles node polygon = true ->
    exists node', forall fuel, (2 * heightNode node <= fuel)%nat ->
                               _insertHelper fuel node polygon = (node', Returned).
Proof.
  induction node as [part f b ps IHf IHb] using BSPNode_nested_ind.
  intros polygon Hlen Hs. cbn [settles] in Hs.
  assert (Hf : forall q, (2 <= length (points q))%nat ->
             match f with Some c' => settles c' q | None => true end = true ->
             forall n, f = Some n ->
               exists n', forall fuel, (2 * heightNode n <= fuel)%nat ->
                                       _insertHelper fuel n q = (n', Returned)).
  { intros q Hq Hsq. eapply settles_child; [exact IHf | | exact Hsq].
    intros n Hn. cbv beta in Hn. now apply Hn. }
  assert (Hb : forall q, (2 <= length (points q))%nat ->
             match b with Some c' => settles c' q | None => true end = true ->
             forall n, b = Some n ->
               exists n', forall fuel, (2 * heightNode n <= fuel)%nat ->
                                       _insertHelper fuel n q = (n', Returned)).
  { intros q Hq Hsq. eapply settles_child; [exact IHb | | exact Hsq].
    intros n Hn. cbv beta in Hn. now apply Hn. }
  assert (Hhf : (2 * getHeight f + 2 <= 2 * heightNode (Node part f b ps))%nat)
    by (rewrite heightNode_unfold; cbn [front back]; lia).
  assert (Hhb : (2 * getHeight b + 2 <= 2 * heightNode (Node part f b ps))%nat)
    by (rewrite heightNode_unfold; cbn [front back]; lia).
  destruct (classifyPolygon polygon part) eqn:Hc.
  - destruct (insert_directed_front part f polygon Hlen Hc (Hf polygon Hlen Hs))
      as [f' Hf'].
    exists (Node part (Some f') b ps). intros fuel Hfuel. apply Hf'. lia.
  - destruct (insert_directed_back part b polygon Hlen Hc (Hb polygon Hlen Hs))
      as [b' Hb'].
    exists (Node part f (Some b') ps). intros fuel Hfuel. apply Hb'. lia.
  - exists (Node part f b (ps ++ [polygon])). intros fuel Hfuel.
    destruct fuel as [|fuel]; [lia|]. now apply insert_coplanar.
  - apply andb_true_iff in Hs as [Hsf Hsb].
    assert (Hfirst : exists f1 ps1, forall fuel, (S (2 * getHeight f) <= fuel)%nat ->
               match fst (splitPolygon polygon part) with
               | Some q => _insertHelper fuel (Node part f b ps) q
               | None => (Node part f b ps, Returned)
               end = (Node part f1 b ps1, Returned)).
    { destruct (fst (splitPolygon polygon part)) as [q|] eqn:Hfr; [|now exists f, ps].
      apply split_front_length in Hfr.
      destruct (classifyPolygon q part) eqn:Hq; try discriminate.
      - destruct (insert_directed_front part f q ltac:(lia) Hq (Hf q ltac:(lia) Hsf))
          as [f' Hf'].
        exists (Some f'), ps. intros fuel Hfuel. now apply Hf'.
      - exists f, (ps ++ [q]). intros fuel Hfuel.
        destruct fuel as [|fuel]; [lia|]. now apply insert_coplanar. }
    assert (Hsecond : exists b2 (g : list Polygon -> list Polygon),
               forall f1 ps1 fuel, (S (2 * getHeight b) <= fuel)%nat ->
               match snd (splitPolygon polygon part) with
               | Some q => _insertHelper fuel (Node part f1 b ps1) q
               | None => (Node part f1 b ps1, Returned)
               end = (Node part f1 b2 (g ps1), Returned)).
    { destruct (snd (splitPolygon polygon part)) as [q|] eqn:Hbk;
        [|now exists b, (fun l => l)].
      apply split_back_length in Hbk.
      destruct (classifyPolygon q part) eqn:Hq; try discriminate.
      - destruct (insert_directed_back part b q ltac:(lia) Hq (Hb q ltac:(lia) Hsb))
          as [b' Hb'].
        exists (Some b'), (fun l => l). intros f1 ps1 fuel Hfuel. now apply Hb'.
      - exists b, (fun l => l ++ [q]). intros f1 ps1 fuel Hfuel.
        destruct fuel as [|fuel]; [lia|]. now apply insert_coplanar. }
    destruct Hfirst as (f1 & ps1 & Hfirst). destruct Hsecond as (b2 & g & Hsecond).
    exists (Node part f1 b2 (g ps1)). intros fuel Hfuel.
    destruct fuel as [|fuel]; [lia|].
    rewrite _insertHelper_S. cbn [partition]. rewrite Hc. cbv zeta.
    rewrite Hfirst by lia. cbn [fst snd]. apply Hsecond. lia.
Qed.

(** A polygon that is SPANNING and whose front fragment is the polygon itself
    is handed back to the same node for ever. *)
Lemma _insertHelper_respanning (node : BSPNode) (polygon : Polygon) :
  classifyPolygon polygon (partition node) = SPANNING ->
  fst (splitPolygon polygon (partition node)) = Some polygon ->
  forall fuel, _insertHelper fuel node polygon = (node, Diverged).
Proof.
  intros Hc Hfr fuel. induction fuel as [|fuel IH]; [reflexivity|].
  rewrite _insertHelper_S, Hc. cbv zeta. rewrite Hfr, IH. reflexivity.
Qed.

(** C7, as stated, fails: the tree holding [wedge] is built by [insert];
    [sliver] has 4 vertices and a leading edge of non-zero length; it is
    SPANNING against the root and its front fragment is again [sliver]; so
    no recursion budget lets [insert] return, and nothing guards against it. *)
Lemma insert_sliver_never_returns :
  (forall fuel, insert (S fuel) emptyTree wedge = (wedgeTree, Returned)) /\
  length (points sliver) = 4%nat /\
  (exists part, createPartition sliver = Normal part /\
                (x (normal part) * x (normal part) + y (normal part) * y (normal part) =? 1)
                = true) /\
  classifyPolygon sliver wedgePartition = SPANNING /\
  fst (splitPolygon sliver wedgePartition) = Some sliver /\
  (forall fuel, insert fuel wedgeTree sliver = (wedgeTree, Diverged)) /\
  ~ (exists fuel tree', insert fuel wedgeTree sliver = (tree', Returned)).
Proof.
  assert (Hc : classifyPolygon sliver wedgePartition = SPANNING)
    by (vm_compute; reflexivity).
  assert (Hs : fst (splitPolygon sliver wedgePartition) = Some sliver)
    by (vm_compute; reflexivity).
  assert (Hd : forall fuel, insert fuel wedgeTree sliver = (wedgeTree, Diverged)).
  { intros fuel. unfold insert, wedgeTree. cbn [root].
    rewrite (_insertHelper_respanning (leaf wedgePartition wedge) sliver Hc Hs fuel).
    reflexivity. }
  split; [intros fuel; vm_compute; reflexivity|]. split; [reflexivity|].
  split; [eexists; split; vm_compute; reflexivity|].
  split; [exact Hc|]. split; [exact Hs|]. split; [exact Hd|].
  intros (fuel & tree' & H). rewrite Hd in H. discriminate.
Qed.

(** C7, amended. [insert] has no recursion guard. It returns, within a
    recursion depth of twice the tree's height and with the same resulting tree
    for every larger depth, for every polygon with at least 3 vertices whose
    splits separate: at every node it reaches the polygon is FRONT, BACK or
    COPLANAR, or it is SPANNING with a front fragment that the same node
    classifies FRONT or COPLANAR and a back fragment that it classifies BACK or
    COPLANAR, the same holding in the subtrees the fragments descend into.
    (When a fragment is SPANNING again the recursion need not end.) *)
Theorem insert_returns_when_splits_settle (tree : BSPTree) (polygon : Polygon) :
  (3 <= length (points polygon))%nat ->
  settlesTree tree polygon = true ->
  exists tree', forall fuel, (2 * getHeight (root tree) <= fuel)%nat ->
                             insert fuel tree polygon = (tree', Returned).
Proof.
  intros Hlen Hs. assert (Hlen2 : (2 <= length (points polygon))%nat) by lia.
  unfold settlesTree in Hs.
  destruct tree as [[r|]]; cbn [root getHeight] in *.
  - destruct (_insertHelper_settles r polygon Hlen2 Hs) as [r' Hr'].
    exists (mkTree (Some r')). intros fuel Hfuel.
    unfold insert. cbn [root]. now rewrite (Hr' fuel Hfuel).
  - destruct (createPartition_Normal polygon Hlen2) as [part Hpart].
    exists (mkTree (Some (leaf part polygon))). intros fuel _.
    unfold insert. cbn [root]. now rewrite Hpart.
Qed.

Lemma insert_returns_when_splits_settle_witness :
  classifyPolygon crossedSquare partitionA = SPANNING /\
  exists tree', forall fuel, (4 <= fuel)%nat ->
                             insert fuel sceneTree crossedSquare = (tree', Returned).
Proof.
  split; [vm_compute; reflexivity|].
  apply (insert_returns_when_splits_settle sceneTree crossedSquare).
  - vm_compute. lia.
  - vm_compute. reflexivity.
Defined.

(** *** Exhausting the recursion depth *)

(** A polygon that is SPANNING and whose front fragment never returns from
    the same node does not return either. *)
Lemma _insertHelper_front_diverges (node : BSPNode) (polygon pf : Polygon) :
  classifyPolygon polygon (partition node) = SPANNING ->
  fst (splitPolygon polygon (partition node)) = Some pf ->
  (forall fuel, _insertHelper fuel node pf = (node, Diverged)) ->
  forall fuel, _insertHelper fuel node polygon = (node, Diverged).
Proof.
  intros Hc Hfr Hd fuel. destruct fuel as [|fuel]; [reflexivity|].
  rewrite _insertHelper_S, Hc. cbv zeta. rewrite Hfr, Hd. reflexivity.
Qed.

(** When no node on its way classifies the polygon as SPANNING, the call
    needs no more depth than the height of the node. *)
Lemma _insertHelper_unsplit (node : BSPNode) :
  forall polygon fuel,
    routes node polygon = true -> (heightNode node <= fuel)%nat ->
    snd (_insertHelper fuel node polygon) <> Diverged.
Proof.
  induction node as [part f b ps IHf IHb] using BSPNode_nested_ind.
  intros polygon fuel Hr Hfuel. cbn [routes] in Hr.
  rewrite heightNode_unfold in Hfuel. cbn [front back] in Hfuel.
  destruct fuel as [|fuel]; [lia|].
  rewrite _insertHelper_S. cbn [partition front back polygons].
  destruct (classifyPolygon polygon part); try discriminate.
  - destruct f as [c|].
    + cbn [onChild getHeight snd] in *. apply IHf; [exact Hr | lia].
    + destruct (createPartition polygon); discriminate.
  - destruct b as [c|].
    + cbn [onChild getHeight snd] in *. apply IHb; [exact Hr | lia].
    + destruct (createPartition polygon); discriminate.
Qed.

Lemma insert_diverged (fuel : nat) (tree : BSPTree) (polygon : Polygon) :
  snd (insert fuel tree polygon) = Diverged ->
  (fuel < getHeight (root tree))%nat \/ routesTree tree polygon = false.
Proof.
  intros Hd. destruct (Nat.lt_ge_cases fuel (getHeight (root tree))) as [Hlt|Hge];
    [now left|right].
  destruct (routesTree tree polygon) eqn:Hr; [exfalso|reflexivity].
  unfold insert, routesTree in *. destruct (root tree) as [r|].
  - pose proof (_insertHelper_unsplit r polygon fuel Hr Hge) as Hn.
    destruct (_insertHelper fuel r polygon) as [r' o]. cbn [snd] in *. contradiction.
  - destruct (createPartition polygon); discriminate.
Qed.

(** A polygon with fewer than two vertices is never SPANNING. *)
Lemma short_not_spanning (polygon : Polygon) (part : Partition) :
  (length (points polygon) < 2)%nat -> classifyPolygon polygon part <> SPANNING.
Proof.
  intros Hlen. rewrite classifyPolygon_of_counts, classifyCounts_filter. cbn [fst snd].
  destruct (points polygon) as [|p [|q rest]]; cbn [length] in Hlen; [| |lia].
  - discriminate.
  - cbn [filter]. destruct (isFront part p) eqn:Hf.
    + unfold isFront in Hf. unfold isBack. rewrite (front_not_back _ Hf). discriminate.
    + destruct (isBack part p); discriminate.
Qed.

Lemma short_routes (polygon : Polygon) (node : BSPNode) :
  (length (points polygon) < 2)%nat -> routes node polygon = true.
Proof.
  intros Hlen. induction node as [part f b ps IHf IHb] using BSPNode_nested_ind.
  cbn [routes]. pose proof (short_not_spanning polygon part Hlen) as Hn.
  destruct (classifyPolygon polygon part); try reflexivity.
  - destruct f; [exact IHf | reflexivity].
  - destruct b; [exact IHb | reflexivity].
  - contradiction.
Qed.

(** *** Missing validation *)

(** C4, as stated, fails: a polygon whose leading edge has zero length is
    inserted without any error, both as the root of the empty tree and as a
    new leaf, and the stored partition has the normal (NaN, NaN). *)
Lemma insert_degenerate_counterexample :
  nth 0 (points degenerate) origin = nth 1 (points degenerate) origin /\
  (forall fuel,
      insert fuel emptyTree degenerate
      = (mkTree (Some (leaf (nanPartition (mkPoint 5 5)) degenerate)), Returned)) /\
  (forall fuel,
      insert (S fuel) (mkTree (Some (leaf partitionA squareA))) degenerate
      = (mkTree (Some (Node partitionA
                            (Some (leaf (nanPartition (mkPoint 5 5)) degenerate))
                            None [squareA])), Returned)).
Proof.
  split; [reflexivity|]. split; intros fuel; vm_compute; reflexivity.
Qed.

Lemma createPartition_zero_edge (polygon : Polygon) (p : Point) (rest : list Point) :
  points polygon = p :: p :: rest ->
  is_finite (x p) = true -> is_finite (y p) = true ->
  createPartition polygon = Normal (nanPartition p).
Proof.
  intros Hpts Hx Hy. unfold createPartition. rewrite Hpts. cbv zeta. cbn [x y].
  rewrite (sub_diag_finite (x p) Hx), (sub_diag_finite (y p) Hy).
  vm_compute. reflexivity.
Qed.

(** C4, amended. [insert] never fails with a DegenerateEdge error: partition
    construction has no zero-length check and returns normally for every
    polygon with at least two vertices, and on the empty tree [insert]
    installs such a polygon as root. Whatever its leading edge, [insert] of a
    polygon with at least two vertices raises no TypeError; the one way it
    can fail is by exhausting the call stack (the engine's RangeError), and
    when the recursion depth available is at least the height of the tree
    this happens only if some node on the polygon's way classifies it as
    SPANNING. It does happen, at every depth, to [sliver], whose leading edge
    has non-zero length, on [wedgeTree]. When the first two vertices coincide
    (finite coordinates), the partition stored has the normal (NaN, NaN). *)
Theorem insert_no_degenerate_edge_error (polygon : Polygon) (p1 p2 : Point)
    (rest : list Point) :
  points polygon = p1 :: p2 :: rest ->
  (exists part,
      createPartition polygon = Normal part /\ point part = p1 /\
      forall fuel, insert fuel emptyTree polygon
                   = (mkTree (Some (leaf part polygon)), Returned)) /\
  (forall fuel tree,
      snd (insert fuel tree polygon) = Returned \/
      (snd (insert fuel tree polygon) = Diverged /\
       ((fuel < getHeight (root tree))%nat \/ routesTree tree polygon = false))) /\
  (p1 = p2 -> is_finite (x p1) = true -> is_finite (y p1) = true ->
   createPartition polygon = Normal (nanPartition p1)) /\
  (nth 0 (points sliver) origin <> nth 1 (points sliver) origin /\
   forall fuel, insert fuel wedgeTree sliver = (wedgeTree, Diverged)).
Proof.
  intros Hpts. split; [|split; [|split]].
  - unfold insert, createPartition. rewrite Hpts. cbv zeta. cbn [root emptyTree].
    eexists. split; [reflexivity|]. split; reflexivity.
  - intros fuel tree.
    destruct (snd (insert fuel tree polygon)) as [|e|] eqn:Ho.
    + now left.
    + exfalso. destruct (insert fuel tree polygon) as [tree' o] eqn:Hins.
      cbn [snd] in Ho. subst o.
      apply insert_throw in Hins as [Hlen _]. rewrite Hpts in Hlen.
      cbn [length] in Hlen. lia.
    + right. split; [reflexivity|]. now apply insert_diverged.
  - intros <- Hx Hy. now apply createPartition_zero_edge with (rest := rest).
  - split.
    + intros H. apply (f_equal (fun pt => x pt =? 0)) in H. vm_compute in H. discriminate.
    + intros fuel. unfold insert, wedgeTree. cbn [root].
      rewrite (_insertHelper_respanning (leaf wedgePartition wedge) sliver);
        [reflexivity | vm_compute; reflexivity | vm_compute; reflexivity].
Qed.

Lemma insert_no_degenerate_edge_error_witness :
  createPartition degenerate = Normal (nanPartition (mkPoint 5 5)) /\
  forall fuel tree,
    snd (insert fuel tree degenerate) = Returned \/
    (snd (insert fuel tree degenerate) = Diverged /\
     ((fuel < getHeight (root tree))%nat \/ routesTree tree degenerate = false)).
Proof.
  pose proof (insert_no_degenerate_edge_error degenerate (mkPoint 5 5) (mkPoint 5 5)
                [mkPoint 6 7] eq_refl) as (_ & Hout & Hnan & _).
  split; [|exact Hout].
  apply Hnan; reflexivity.
Defined.

(** C5, as stated, fails: a two-vertex polygon inserted into the empty tree
    becomes its root, and a polygon without vertices is appended to the root
    of a non-empty tree; neither call is rejected and both change the tree. *)
Lemma insert_short_polygon_counterexample :
  (length (points segment) < 3)%nat /\
  (forall fuel,
      insert fuel emptyTree segment = (mkTree (Some (leaf partitionA segment)), Returned)) /\
  (length (points noVertex) < 3)%nat /\
  (forall fuel,
      insert (S fuel) (mkTree (Some (leaf partitionA squareA))) noVertex
      = (mkTree (Some (Node partitionA None None [squareA; noVertex])), Returned)).
Proof.
  split; [vm_compute; lia|]. split; [intros fuel; vm_compute; reflexivity|].
  split; [vm_compute; lia|]. intros fuel; vm_compute; reflexivity.
Qed.

(** [farSegment] is SPANNING against the root of [wedgeTree], and its front
    fragment is SPANNING with itself as front fragment. *)
Lemma insert_farSegment (fuel : nat) :
  insert fuel wedgeTree farSegment = (wedgeTree, Diverged).
Proof.
  assert (H : exists pf,
             fst (splitPolygon farSegment wedgePartition) = Some pf /\
             classifyPolygon pf wedgePartition = SPANNING /\
             fst (splitPolygon pf wedgePartition) = Some pf)
    by (eexists; repeat split; vm_compute; reflexivity).
  destruct H as (pf & Hfr & Hc & Hself).
  unfold insert, wedgeTree. cbn [root].
  rewrite (_insertHelper_front_diverges (leaf wedgePartition wedge) farSegment pf);
    [reflexivity | vm_compute; reflexivity | exact Hfr |].
  now apply _insertHelper_respanning.
Qed.

(** C5, amended. [insert] does not check the number of vertices and never
    raises InvalidPolygon. For a polygon with fewer than 3 vertices a call
    ends in one of three ways. It returns. Or it throws the runtime
    TypeError, which happens only to a polygon with fewer than 2 vertices
    that reaches partition construction - always on the empty tree - and
    then the tree is left exactly as it was. Or it exhausts the call stack
    (the engine's RangeError); when the recursion depth available is at least
    the height of the tree, this happens only to a polygon with exactly 2
    vertices that some node on its way classifies as SPANNING, and it does
    happen, at every depth, to [farSegment] on [wedgeTree]. A polygon with 2
    vertices never raises the TypeError, and on the empty tree it becomes the
    root; a polygon with none is appended to the root of a non-empty
    tree. *)
Theorem insert_short_polygon (fuel : nat) (tree : BSPTree) (polygon : Polygon) :
  (length (points polygon) < 3)%nat ->
  (snd (insert fuel tree polygon) = Returned \/
   (snd (insert fuel tree polygon) = Threw TypeError /\
    (length (points polygon) < 2)%nat /\ fst (insert fuel tree polygon) = tree) \/
   (snd (insert fuel tree polygon) = Diverged /\
    ((fuel < getHeight (root tree))%nat \/
     (length (points polygon) = 2%nat /\ routesTree tree polygon = false)))) /\
  (length (points polygon) = 2%nat ->
   (forall e, snd (insert fuel tree polygon) <> Threw e) /\
   (root tree = None ->
    exists part, insert fuel tree polygon = (mkTree (Some (leaf part polygon)), Returned))) /\
  ((length (points polygon) < 2)%nat -> root tree = None ->
   insert fuel tree polygon = (tree, Threw TypeError)) /\
  (points polygon = [] -> forall r, root tree = Some r ->
   insert (S fuel) tree polygon
   = (mkTree (Some (Node (partition r) (front r) (back r) (polygons r ++ [polygon]))),
      Returned)) /\
  (length (points farSegment) = 2%nat /\
   forall fuel', insert fuel' wedgeTree farSegment = (wedgeTree, Diverged)).
Proof.
  intros Hshort. split; [|split; [|split; [|split]]].
  - destruct (snd (insert fuel tree polygon)) as [|e|] eqn:Ho.
    + now left.
    + right; left. destruct (insert fuel tree polygon) as [tree' o] eqn:Hins.
      cbn [fst snd] in *. subst o. apply insert_throw in Hins as [Hlen ->].
      destruct e. auto.
    + right; right. split; [reflexivity|].
      destruct (insert_diverged fuel tree polygon Ho) as [Hlt|Hr]; [now left|right].
      split; [|exact Hr].
      destruct (Nat.lt_ge_cases (length (points polygon)) 2) as [Hlt|Hge]; [exfalso|lia].
      unfold routesTree in Hr. destruct (root tree) as [r|]; [|discriminate].
      rewrite (short_routes polygon r Hlt) in Hr. discriminate.
  - intros H2. split.
    + intros e He. destruct (insert fuel tree polygon) as [tree' o] eqn:Hins.
      cbn [snd] in He. subst o. apply insert_throw in Hins as [Hlen _]. lia.
    + intros Hroot. unfold insert. rewrite Hroot.
      destruct (createPartition_Normal polygon) as [part ->]; [lia|]. eauto.
  - intros Hlt Hroot. unfold insert, createPartition. rewrite Hroot.
    destruct (points polygon) as [|p1 [|p2 rest]]; cbn [length] in Hlt;
      [reflexivity | reflexivity | lia].
  - intros Hnil r Hroot. unfold insert. rewrite Hroot.
    rewrite _insertHelper_S.
    assert (Hc : classifyPolygon polygon (partition r) = COPLANAR).
    { unfold classifyPolygon, classifyCounts. rewrite Hnil. reflexivity. }
    rewrite Hc. reflexivity.
  - split; [reflexivity | apply insert_farSegment].
Qed.

Lemma insert_short_polygon_witness :
  (length (points noVertex) < 3)%nat /\
  insert 1 emptyTree noVertex = (emptyTree, Threw TypeError).
Proof.
  assert (H : (length (points noVertex) < 3)%nat) by (vm_compute; lia).
  split; [exact H|].
  apply (insert_short_polygon 1 emptyTree noVertex H); [vm_compute; lia | reflexivity].
Defined.


(** ** Further properties of the tree *)

Lemma getHeight_Some (node : BSPNode) :
  getHeight (Some node) = S (Nat.max (getHeight (front node)) (getHeight (back node))).
Proof. apply heightNode_unfold. Qed.

(** X1. The height of a tree is at most its number of nodes, and a tree of
    height h has fewer than 2^h nodes; both are 0 exactly for the empty tree. *)
Theorem height_count_bounds (node : option BSPNode) :
  (getHeight node <= countNodes node)%nat /\
  (countNodes node < 2 ^ getHeight node)%nat /\
  (getHeight node = 0%nat <-> node = None) /\
  (countNodes node = 0%nat <-> node = None).
Proof.
  split; [|split; [|split]].
  - induction node as [|n IHf IHb] using subtree_ind; [apply le_n|].
    rewrite getHeight_Some, countNodes_Some. lia.
  - induction node as [|n IHf IHb] using subtree_ind; [cbn; lia|].
    rewrite getHeight_Some, countNodes_Some. cbn [Nat.pow].
    pose proof (Nat.pow_le_mono_r 2 (getHeight (front n))
                  (Nat.max (getHeight (front n)) (getHeight (back n)))
                  ltac:(lia) ltac:(lia)).
    pose proof (Nat.pow_le_mono_r 2 (getHeight (back n))
                  (Nat.max (getHeight (front n)) (getHeight (back n)))
                  ltac:(lia) ltac:(lia)).
    lia.
  - destruct node as [n|]; [|tauto]. rewrite getHeight_Some. split; [lia|discriminate].
  - destruct node as [n|]; [|tauto]. rewrite countNodes_Some. split; [lia|discriminate].
Qed.

Lemma allPolygons_Some (node : BSPNode) :
  allPolygons (Some node) =
  polygons node ++ allPolygons (front node) ++ allPolygons (back node).
Proof.
  unfold allPolygons. rewrite allNodes_Some. cbn [flat_map]. now rewrite flat_map_app.
Qed.

Lemma extends_sizes (old : BSPNode) :
  forall new, extends old new ->
    (countNode old <= countNode new)%nat /\
    (heightNode old <= heightNode new)%nat /\
    (length (allPolygons (Some old)) <= length (allPolygons (Some new)))%nat.
Proof.
  induction old as [part f b ps IHf IHb] using BSPNode_nested_ind.
  intros new Hext. apply extends_unfold in Hext as (_ & (extra & Hps) & Hf & Hb).
  cbn [front back polygons] in *.
  assert (Hcf : (countNodes f <= countNodes (front new))%nat /\
                (getHeight f <= getHeight (front new))%nat /\
                (length (allPolygons f) <= length (allPolygons (front new)))%nat).
  { destruct f as [c|]; [|cbn; repeat split; apply Nat.le_0_l].
    cbn [slotExtends] in Hf. destruct (front new) as [c'|]; [|contradiction].
    exact (IHf c' Hf). }
  assert (Hcb : (countNodes b <= countNodes (back new))%nat /\
                (getHeight b <= getHeight (back new))%nat /\
                (length (allPolygons b) <= length (allPolygons (back new)))%nat).
  { destruct b as [c|]; [|cbn; repeat split; apply Nat.le_0_l].
    cbn [slotExtends] in Hb. destruct (back new) as [c'|]; [|contradiction].
    exact (IHb c' Hb). }
  change (countNode (Node part f b ps)) with (countNodes (Some (Node part f b ps))).
  change (countNode new) with (countNodes (Some new)).
  change (heightNode (Node part f b ps)) with (getHeight (Some (Node part f b ps))).
  change (heightNode new) with (getHeight (Some new)).
  rewrite !countNodes_Some, !getHeight_Some, !allPolygons_Some, !length_app, Hps, length_app.
  cbn [front back polygons]. lia.
Qed.

(** X2. [insert] never removes anything, however it completes: the number of
    nodes, the height and the number of stored polygons do not decrease. *)
Theorem insert_never_shrinks (fuel : nat) (tree : BSPTree) (polygon : Polygon) :
  let tree' := fst (insert fuel tree polygon) in
  (countNodes (root tree) <= countNodes (root tree'))%nat /\
  (getHeight (root tree) <= getHeight (root tree'))%nat /\
  (length (allPolygons (root tree)) <= length (allPolygons (root tree')))%nat.
Proof.
  cbv zeta. pose proof (insert_extends fuel tree polygon) as Hext.
  destruct (root tree) as [r|]; [|cbn; repeat split; apply Nat.le_0_l].
  cbn [slotExtends] in Hext.
  destruct (root (fst (insert fuel tree polygon))) as [r'|]; [|contradiction].
  exact (extends_sizes r r' Hext).
Qed.

Lemma Subseq_refl {A : Type} (l : list A) : Subseq l l.
Proof. induction l; constructor; assumption. Qed.

Lemma Subseq_nil_l {A : Type} (l : list A) : Subseq [] l.
Proof. induction l; constructor; assumption. Qed.

Lemma Subseq_app {A : Type} (s1 l1 s2 l2 : list A) :
  Subseq s1 l1 -> Subseq s2 l2 -> Subseq (s1 ++ s2) (l1 ++ l2).
Proof.
  intros H1 H2. induction H1; cbn [app]; [assumption | |]; constructor; assumption.
Qed.

Lemma Subseq_app_r {A : Type} (l extra : list A) : Subseq l (l ++ extra).
Proof.
  rewrite <- (app_nil_r l) at 1. apply Subseq_app; [apply Subseq_refl | apply Subseq_nil_l].
Qed.

Lemma render_Some (node : BSPNode) (viewpoint : Point) :
  flat_map polygons (visitOrder (Some node) viewpoint) =
  if inFront viewpoint node
  then flat_map polygons (visitOrder (back node) viewpoint) ++ polygons node
       ++ flat_map polygons (visitOrder (front node) viewpoint)
  else flat_map polygons (visitOrder (front node) viewpoint) ++ polygons node
       ++ flat_map polygons (visitOrder (back node) viewpoint).
Proof.
  rewrite visitOrder_Some. unfold inFront.
  destruct (0 <? pointToPlaneDistance viewpoint (partition node));
    rewrite !flat_map_app; cbn [flat_map]; now rewrite app_nil_r.
Qed.

Lemma extends_render (viewpoint : Point) (old : BSPNode) :
  forall new, extends old new ->
    Subseq (flat_map polygons (visitOrder (Some old) viewpoint))
           (flat_map polygons (visitOrder (Some new) viewpoint)).
Proof.
  induction old as [part f b ps IHf IHb] using BSPNode_nested_ind.
  intros new Hext. apply extends_unfold in Hext as (Hp & (extra & Hps) & Hf & Hb).
  cbn [front back polygons partition] in *.
  assert (Hsf : Subseq (flat_map polygons (visitOrder f viewpoint))
                       (flat_map polygons (visitOrder (front new) viewpoint))).
  { destruct f as [c|]; [|apply Subseq_nil_l].
    cbn [slotExtends] in Hf. destruct (front new) as [c'|]; [|contradiction].
    exact (IHf c' Hf). }
  assert (Hsb : Subseq (flat_map polygons (visitOrder b viewpoint))
                       (flat_map polygons (visitOrder (back new) viewpoint))).
  { destruct b as [c|]; [|apply Subseq_nil_l].
    cbn [slotExtends] in Hb. destruct (back new) as [c'|]; [|contradiction].
    exact (IHb c' Hb). }
  rewrite !render_Some. unfold inFront. rewrite Hp, Hps. cbn [partition front back polygons].
  destruct (0 <? pointToPlaneDistance viewpoint part);
    repeat apply Subseq_app; try assumption; apply Subseq_app_r.
Qed.

(** X3. For every viewpoint, the render order before an [insert] is the
    render order after it with the added polygons left out: [insert] never
    removes a polygon from the painter's sequence nor changes the relative
    order of the polygons already there, however it completes. *)
Theorem insert_keeps_render_order (fuel : nat) (tree : BSPTree) (polygon : Polygon)
    (viewpoint : Point) :
  Subseq (renderOrder tree viewpoint)
         (renderOrder (fst (insert fuel tree polygon)) viewpoint).
Proof.
  rewrite !renderOrder_flat. pose proof (insert_extends fuel tree polygon) as Hext.
  destruct (root tree) as [r|]; [|apply Subseq_nil_l].
  cbn [slotExtends] in Hext.
  destruct (root (fst (insert fuel tree polygon))) as [r'|]; [|contradiction].
  now apply extends_render.
Qed.

Lemma renderOrder_stored (tree : BSPTree) (viewpoint : Point) :
  Permutation (renderOrder tree viewpoint) (allPolygons (root tree)).
Proof.
  rewrite renderOrder_flat. unfold allPolygons.
  apply Permutation_flat_map. apply visitOrder_perm.
Qed.

(** X4. The render order lists every polygon stored in the tree exactly
    once, whatever the viewpoint: it is a rearrangement of the stored
    polygons, so its length does not depend on the viewpoint and two
    viewpoints give rearrangements of each other. *)
Theorem renderOrder_permutation (tree : BSPTree) (viewpoint : Point) :
  Permutation (renderOrder tree viewpoint) (allPolygons (root tree)) /\
  length (renderOrder tree viewpoint) = length (allPolygons (root tree)) /\
  (forall viewpoint', Permutation (renderOrder tree viewpoint)
                                  (renderOrder tree viewpoint')).
Proof.
  pose proof (renderOrder_stored tree) as H.
  split; [apply H|]. split; [apply Permutation_length, H|].
  intros v'. rewrite (H viewpoint). symmetry. apply H.
Qed.

Lemma everyNodeOf_front_back (P : BSPNode -> Prop) (node : BSPNode) :
  everyNodeOf P (Some node) ->
  P node /\ everyNodeOf P (front node) /\ everyNodeOf P (back node).
Proof. cbn [everyNodeOf]. apply everyNode_unfold. Qed.

(** X5. The visiting order depends on the viewpoint only through the side of
    each partition it lies on: two viewpoints that are on the same side of
    every node's plane are given the same sequence of nodes and the same
    render order. *)
Theorem same_sides_same_order (tree : BSPTree) (v1 v2 : Point) :
  everyNodeOf (sameSide v1 v2) (root tree) ->
  visitOrder (root tree) v1 = visitOrder (root tree) v2 /\
  renderOrder tree v1 = renderOrder tree v2.
Proof.
  intros H. assert (Hv : visitOrder (root tree) v1 = visitOrder (root tree) v2).
  { induction (root tree) as [|n IHf IHb] using subtree_ind; [reflexivity|].
    apply everyNodeOf_front_back in H as (Hn & Hf & Hb).
    rewrite !visitOrder_Some. unfold sameSide, inFront in Hn. rewrite Hn.
    now rewrite (IHf Hf), (IHb Hb). }
  split; [exact Hv|]. now rewrite !renderOrder_flat, Hv.
Qed.

Lemma same_sides_same_order_witness :
  renderOrder sceneTree (mkPoint 5 50) = renderOrder sceneTree (mkPoint 7 60).
Proof.
  apply (same_sides_same_order sceneTree (mkPoint 5 50) (mkPoint 7 60)).
  vm_compute. repeat split.
Defined.

(** X6. Two viewpoints that are on opposite sides of every node's plane are
    given the nodes in exactly reverse order. *)
Theorem opposite_sides_reverse_order (tree : BSPTree) (v1 v2 : Point) :
  everyNodeOf (oppositeSide v1 v2) (root tree) ->
  visitOrder (root tree) v2 = rev (visitOrder (root tree) v1).
Proof.
  intros H.
  induction (root tree) as [|n IHf IHb] using subtree_ind; [reflexivity|].
  apply everyNodeOf_front_back in H as (Hn & Hf & Hb).
  rewrite !visitOrder_Some. unfold oppositeSide, inFront in Hn. rewrite Hn.
  rewrite (IHf Hf), (IHb Hb).
  destruct (0 <? pointToPlaneDistance v2 (partition n)); cbn [negb];
    rewrite !rev_app_distr; cbn [rev app]; now rewrite <- !app_assoc.
Qed.

Lemma opposite_sides_reverse_order_witness :
  visitOrder (root sceneTree) (mkPoint 5 (-50))
  = rev (visitOrder (root sceneTree) (mkPoint 5 50)).
Proof.
  apply (opposite_sides_reverse_order sceneTree (mkPoint 5 50) (mkPoint 5 (-50))).
  vm_compute. repeat split.
Defined.

Lemma allPolygons_node (part : Partition) (f b : option BSPNode) (ps : list Polygon) :
  allPolygons (Some (Node part f b ps)) = ps ++ allPolygons f ++ allPolygons b.
Proof. apply (allPolygons_Some (Node part f b ps)). Qed.

Lemma allPolygons_leaf (part : Partition) (polygon : Polygon) :
  allPolygons (Some (leaf part polygon)) = [polygon].
Proof. reflexivity. Qed.

(** What an insertion stores comes from the inserted polygon: a property
    [New] of it that its fragments inherit holds of everything added. *)
Lemma _insertHelper_stores (Old New : Polygon -> Prop) :
  (forall q part f, New q -> fst (splitPolygon q part) = Some f -> New f) ->
  (forall q part f, New q -> snd (splitPolygon q part) = Some f -> New f) ->
  forall fuel node polygon,
    New polygon ->
    Forall (fun q => Old q \/ New q) (allPolygons (Some node)) ->
    Forall (fun q => Old q \/ New q)
           (allPolygons (Some (fst (_insertHelper fuel node polygon)))).
Proof.
  intros Hfr Hbk. induction fuel as [|fuel IH]; intros node polygon Hnew Hall;
    [exact Hall|].
  rewrite _insertHelper_S. rewrite allPolygons_Some in Hall.
  apply Forall_app in Hall as [Hps Hsub]. apply Forall_app in Hsub as [Hf Hb].
  destruct (classifyPolygon polygon (partition node)).
  - destruct (front node) as [c|] eqn:Hfront.
    + cbn [fst]. rewrite allPolygons_node. rewrite !Forall_app.
      split; [exact Hps|]. split; [now apply IH | exact Hb].
    + destruct (createPartition polygon); cbn [fst].
      * rewrite allPolygons_node, allPolygons_leaf. rewrite !Forall_app.
        split; [exact Hps|]. split; [|exact Hb]. constructor; [now right | constructor].
      * rewrite allPolygons_Some, Hfront. rewrite !Forall_app. auto.
  - destruct (back node) as [c|] eqn:Hback.
    + cbn [fst]. rewrite allPolygons_node. rewrite !Forall_app.
      split; [exact Hps|]. split; [exact Hf | now apply IH].
    + destruct (createPartition polygon); cbn [fst].
      * rewrite allPolygons_node, allPolygons_leaf. rewrite !Forall_app.
        split; [exact Hps|]. split; [exact Hf|]. constructor; [now right | constructor].
      * rewrite allPolygons_Some, Hback. rewrite !Forall_app. auto.
  - cbn [fst]. rewrite allPolygons_node. rewrite !Forall_app.
    split; [|split; assumption]. split; [exact Hps|].
    constructor; [now right | constructor].
  - cbv zeta.
    assert (Hnode : Forall (fun q => Old q \/ New q) (allPolygons (Some node))).
    { rewrite allPolygons_Some, !Forall_app. auto. }
    set (first := match fst (splitPolygon polygon (partition node)) with
                  | Some p => _insertHelper fuel node p
                  | None => (node, Returned)
                  end).
    assert (Hfirst : Forall (fun q => Old q \/ New q) (allPolygons (Some (fst first)))).
    { subst first.
      destruct (fst (splitPolygon polygon (partition node))) as [pf|] eqn:E;
        [|exact Hnode].
      apply IH; [|exact Hnode]. eapply Hfr; eauto. }
    destruct (snd first); try exact Hfirst.
    destruct (snd (splitPolygon polygon (partition node))) as [pb|] eqn:E;
      [|exact Hfirst].
    apply IH; [|exact Hfirst]. eapply Hbk; eauto.
Qed.

Lemma insert_stores (Old New : Polygon -> Prop) :
  (forall q part f, New q -> fst (splitPolygon q part) = Some f -> New f) ->
  (forall q part f, New q -> snd (splitPolygon q part) = Some f -> New f) ->
  forall fuel tree polygon,
    New polygon ->
    Forall (fun q => Old q \/ New q) (allPolygons (root tree)) ->
    Forall (fun q => Old q \/ New q)
           (allPolygons (root (fst (insert fuel tree polygon)))).
Proof.
  intros Hfr Hbk fuel tree polygon Hnew Hall. unfold insert.
  destruct (root tree) as [r|] eqn:Hroot.
  - pose proof (_insertHelper_stores Old New Hfr Hbk fuel r polygon Hnew Hall) as H.
    destruct (_insertHelper fuel r polygon) as [r' o]. exact H.
  - destruct (createPartition polygon); cbn [fst root].
    + rewrite allPolygons_leaf. constructor; [now right | constructor].
    + rewrite Hroot. constructor.
Qed.

Lemma pieceOf_front (polygon q : Polygon) (part : Partition) (f : Polygon) :
  pieceOf polygon q -> fst (splitPolygon q part) = Some f -> pieceOf polygon f.
Proof.
  intros (Hid & Hcol & _) Hf. rewrite splitPolygon_fragments in Hf. cbn [fst] in Hf.
  apply fragment_Some in Hf as (Hp & Hl & Hi & Hc).
  unfold pieceOf. rewrite Hp. repeat split; [congruence | congruence | now right].
Qed.

Lemma pieceOf_back (polygon q : Polygon) (part : Partition) (f : Polygon) :
  pieceOf polygon q -> snd (splitPolygon q part) = Some f -> pieceOf polygon f.
Proof.
  intros (Hid & Hcol & _) Hf. rewrite splitPolygon_fragments in Hf. cbn [snd] in Hf.
  apply fragment_Some in Hf as (Hp & Hl & Hi & Hc).
  unfold pieceOf. rewrite Hp. repeat split; [congruence | congruence | now right].
Qed.

(** X7. Whatever [insert] adds to the tree is the inserted polygon or a
    fragment of it: every polygon stored afterwards was stored before, or has
    the identifier and the colour of the inserted polygon and is that polygon
    itself or has at least 3 vertices. Fragments are not given identifiers of
    their own. *)
Theorem insert_stores_only_pieces (fuel : nat) (tree : BSPTree) (polygon : Polygon) :
  forall q, In q (allPolygons (root (fst (insert fuel tree polygon)))) ->
            In q (allPolygons (root tree)) \/ pieceOf polygon q.
Proof.
  assert (H : Forall (fun q => In q (allPolygons (root tree)) \/ pieceOf polygon q)
                     (allPolygons (root (fst (insert fuel tree polygon))))).
  { apply insert_stores.
    - apply pieceOf_front.
    - apply pieceOf_back.
    - unfold pieceOf. auto.
    - apply Forall_forall. auto. }
  rewrite Forall_forall in H. exact H.
Qed.

Lemma insert_stores_only_pieces_witness :
  exists q,
    In q (allPolygons (root (fst (insert 4 sceneTree crossedSquare)))) /\
    ~ In q (allPolygons (root sceneTree)) /\
    pieceOf crossedSquare q.
Proof.
  exists (mkPolygon 7 [mkPoint 10 0; mkPoint 10 5; mkPoint 0 5; mkPoint 0 0] "#000000").
  assert (Hin : In (mkPolygon 7 [mkPoint 10 0; mkPoint 10 5; mkPoint 0 5; mkPoint 0 0]
                              "#000000")
                   (allPolygons (root (fst (insert 4 sceneTree crossedSquare)))))
    by (vm_compute; tauto).
  assert (Hold : ~ In (mkPolygon 7 [mkPoint 10 0; mkPoint 10 5; mkPoint 0 5; mkPoint 0 0]
                                 "#000000")
                     (allPolygons (root sceneTree)))
    by (vm_compute; intros [H|[H|[H|[]]]]; discriminate H).
  split; [exact Hin|]. split; [exact Hold|].
  destruct (insert_stores_only_pieces 4 sceneTree crossedSquare _ Hin) as [H|H];
    [contradiction | exact H].
Defined.

Lemma insertAll_invariant (P : BSPTree -> Prop) (Q : Polygon -> Prop) (fuel : nat) :
  (forall tree polygon, P tree -> Q polygon -> P (fst (insert fuel tree polygon))) ->
  forall polys tree, P tree -> Forall Q polys -> P (fst (insertAll fuel tree polys)).
Proof.
  intros Hstep. induction polys as [|poly rest IH]; intros tree HP HQ; [exact HP|].
  apply Forall_cons_iff in HQ as [Hq Hrest]. cbn [insertAll].
  pose proof (Hstep tree poly HP Hq) as H1.
  destruct (insert fuel tree poly) as [tree' o]. cbn [fst] in H1.
  destruct o; [now apply IH | exact H1 | exact H1].
Qed.

(** X8. A tree in which every stored polygon has at least 3 vertices stays so
    when polygons with at least 3 vertices are inserted, one by one or in a
    [forEach] loop, however the calls complete: the fragments made by
    splitting have at least 3 vertices. *)
Theorem insert_keeps_three_vertices (fuel : nat) (tree : BSPTree) (polys : list Polygon) :
  Forall (fun q => (3 <= length (points q))%nat) (allPolygons (root tree)) ->
  Forall (fun q => (3 <= length (points q))%nat) polys ->
  Forall (fun q => (3 <= length (points q))%nat)
         (allPolygons (root (fst (insertAll fuel tree polys)))) /\
  (forall polygon, (3 <= length (points polygon))%nat ->
     Forall (fun q => (3 <= length (points q))%nat)
            (allPolygons (root (fst (insert fuel tree polygon))))).
Proof.
  set (big := fun q : Polygon => (3 <= length (points q))%nat).
  assert (Hstep : forall t p, Forall big (allPolygons (root t)) -> big p ->
                    Forall big (allPolygons (root (fst (insert fuel t p))))).
  { intros t p Ht Hp.
    pose proof (insert_stores big big
                  (fun q part f _ H => split_front_length q part f H)
                  (fun q part f _ H => split_back_length q part f H)
                  fuel t p Hp) as H.
    eapply Forall_impl; [|apply H].
    - intros q [Hq|Hq]; exact Hq.
    - eapply Forall_impl; [|exact Ht]. intros q Hq. now left. }
  intros Htree Hpolys. split.
  - exact (insertAll_invariant (fun t => Forall big (allPolygons (root t))) big fuel
             Hstep polys tree Htree Hpolys).
  - intros polygon Hp. now apply Hstep.
Qed.

Lemma insert_keeps_three_vertices_witness :
  Forall (fun q => (3 <= length (points q))%nat)
         (allPolygons (root (fst (insertAll 4 sceneTree [crossedSquare; squareB])))).
Proof.
  apply (insert_keeps_three_vertices 4 sceneTree [crossedSquare; squareB]).
  - vm_compute. repeat constructor.
  - vm_compute. repeat constructor.
Defined.

Lemma _insertHelper_wellFormed (fuel : nat) :
  forall node polygon,
    everyNode wellFormedNode node ->
    everyNode wellFormedNode (fst (_insertHelper fuel node polygon)).
Proof.
  induction fuel as [|fuel IH]; intros node polygon Hinv; [exact Hinv|].
  rewrite _insertHelper_S.
  pose proof Hinv as Hnode. apply everyNode_unfold in Hnode as (Hn & Hf & Hb).
  destruct Hn as (creator & rest & Hps & Hpart & Hrest).
  assert (Hleaf : forall p, createPartition polygon = Normal p ->
                            everyNode wellFormedNode (leaf p polygon)).
  { intros p Hp. cbn. repeat split. exists polygon, []. cbn. auto. }
  destruct (classifyPolygon polygon (partition node)) eqn:Hc.
  - destruct (front node) as [c|] eqn:Hfr.
    + cbn [fst]. apply everyNode_unfold. cbn [front back].
      split; [|split; [apply IH; exact Hf | exact Hb]].
      exists creator, rest. cbn [polygons partition]. auto.
    + destruct (createPartition polygon) eqn:Hcp; cbn [fst]; [|exact Hinv].
      apply everyNode_unfold. cbn [front back].
      split; [|split; [now apply Hleaf | exact Hb]].
      exists creator, rest. cbn [polygons partition]. auto.
  - destruct (back node) as [c|] eqn:Hbk.
    + cbn [fst]. apply everyNode_unfold. cbn [front back].
      split; [|split; [exact Hf | apply IH; exact Hb]].
      exists creator, rest. cbn [polygons partition]. auto.
    + destruct (createPartition polygon) eqn:Hcp; cbn [fst]; [|exact Hinv].
      apply everyNode_unfold. cbn [front back].
      split; [|split; [exact Hf | now apply Hleaf]].
      exists creator, rest. cbn [polygons partition]. auto.
  - cbn [fst]. apply everyNode_unfold. cbn [front back].
    split; [|split; assumption].
    exists creator, (rest ++ [polygon]). cbn [polygons partition].
    rewrite Hps. split; [reflexivity|]. split; [exact Hpart|].
    apply Forall_app. split; [exact Hrest|]. constructor; [exact Hc | constructor].
  - cbv zeta.
    set (first := match fst (splitPolygon polygon (partition node)) with
                  | Some p => _insertHelper fuel node p
                  | None => (node, Returned)
                  end).
    assert (Hfirst : everyNode wellFormedNode (fst first)).
    { subst first. destruct (fst (splitPolygon polygon (partition node)));
        [apply IH; exact Hinv | exact Hinv]. }
    destruct (snd first); try exact Hfirst.
    destruct (snd (splitPolygon polygon (partition node))); [|exact Hfirst].
    apply IH. exact Hfirst.
Qed.

(** X9. In every tree built by calls of [insert], each node's plane is the
    plane of the first polygon in its collection (the polygon that created the
    node), and every other polygon of the collection is classified COPLANAR
    against that plane. The creating polygon itself need not be: it is stored
    without being classified against its own plane. *)
Theorem built_nodes_wellFormed :
  (forall tree, built tree -> everyNodeOf wellFormedNode (root tree)) /\
  (forall fuel tree polygon,
      everyNodeOf wellFormedNode (root tree) ->
      everyNodeOf wellFormedNode (root (fst (insert fuel tree polygon)))) /\
  (createPartition squareA = Normal partitionA /\
   classifyPolygon squareA partitionA = FRONT).
Proof.
  assert (Hstep : forall fuel tree polygon,
             everyNodeOf wellFormedNode (root tree) ->
             everyNodeOf wellFormedNode (root (fst (insert fuel tree polygon)))).
  { intros fuel tree polygon. unfold insert.
    destruct tree as [[r|]]; cbn [root everyNodeOf].
    - intros H. pose proof (_insertHelper_wellFormed fuel r polygon H) as H'.
      destruct (_insertHelper fuel r polygon) as [r' o]. exact H'.
    - intros _. destruct (createPartition polygon) eqn:Hcp; cbn; [|exact I].
      repeat split. exists polygon, []. cbn. auto. }
  split; [|split; [exact Hstep|]].
  - intros tree Hb. induction Hb as [|fuel tree polygon Hb IH]; [exact I|].
    now apply Hstep.
  - split; vm_compute; reflexivity.
Qed.

Lemma sceneTree_built : built sceneTree.
Proof.
  change sceneTree with
    (fst (insert 1 (fst (insert 1 (fst (insert 1 emptyTree squareA)) squareB)) squareC)).
  repeat constructor.
Qed.

Lemma built_nodes_wellFormed_witness : everyNodeOf wellFormedNode (root sceneTree).
Proof.
  exact (proj1 built_nodes_wellFormed sceneTree sceneTree_built).
Defined.

(** *** Clipping a polygon that does not cross *)

Lemma strictly_front_sides (d : float) :
  (0 <? d) = true -> (0 <=? d) = true /\ (d <=? 0) = false /\ (d <? 0) = false.
Proof.
  intros H. rewrite leb_zero_l, leb_zero_r.
  destruct (sign_cases d) as [(H1 & -> & -> & _)|[(H1 & _)|[(H1 & _)|(H1 & _)]]];
    rewrite H1 in *; try discriminate. auto.
Qed.

Lemma strictly_back_sides (d : float) :
  (d <? 0) = true -> (0 <=? d) = false /\ (d <=? 0) = true /\ (0 <? d) = false.
Proof.
  intros H. rewrite leb_zero_l, leb_zero_r.
  destruct (sign_cases d) as [(_ & H1 & _)|[(-> & H1 & -> & _)|[(_ & H1 & _)|(_ & H1 & _)]]];
    rewrite H1 in *; try discriminate. auto.
Qed.

Lemma nth_mod_In (pts : list Point) (i : nat) :
  (i < length pts)%nat ->
  In (nth i pts origin) pts /\ In (nth ((i + 1) mod length pts) pts origin) pts.
Proof.
  intros Hi. split; apply nth_In; [exact Hi|].
  apply Nat.mod_upper_bound. lia.
Qed.

Lemma splitFold_front_only (pts : list Point) (part : Partition) :
  Forall (fun pt => strictlyFront part pt = true) pts ->
  forall idx fp bp,
    Forall (fun i => (i < length pts)%nat) idx ->
    fold_left (splitStep pts part) idx (fp, bp)
    = (fp ++ map (fun i => nth i pts origin) idx, bp).
Proof.
  intros Hall. rewrite Forall_forall in Hall.
  induction idx as [|i idx IH]; intros fp bp Hidx; cbn [fold_left map].
  - now rewrite app_nil_r.
  - apply Forall_cons_iff in Hidx as [Hi Hidx].
    destruct (nth_mod_In pts i Hi) as [Hc Hn].
    apply Hall in Hc, Hn. unfold strictlyFront in Hc, Hn.
    destruct (strictly_front_sides _ Hc) as (Hc1 & Hc2 & Hc3).
    destruct (strictly_front_sides _ Hn) as (_ & _ & Hn3).
    unfold splitStep at 2. cbv zeta. unfold crosses.
    rewrite Hc1, Hc2, Hc3, Hn3, Hc. cbn [andb orb].
    rewrite IH by exact Hidx. now rewrite <- app_assoc.
Qed.

Lemma splitFold_back_only (pts : list Point) (part : Partition) :
  Forall (fun pt => strictlyBack part pt = true) pts ->
  forall idx fp bp,
    Forall (fun i => (i < length pts)%nat) idx ->
    fold_left (splitStep pts part) idx (fp, bp)
    = (fp, bp ++ map (fun i => nth i pts origin) idx).
Proof.
  intros Hall. rewrite Forall_forall in Hall.
  induction idx as [|i idx IH]; intros fp bp Hidx; cbn [fold_left map].
  - now rewrite app_nil_r.
  - apply Forall_cons_iff in Hidx as [Hi Hidx].
    destruct (nth_mod_In pts i Hi) as [Hc Hn].
    apply Hall in Hc, Hn. unfold strictlyBack in Hc, Hn.
    destruct (strictly_back_sides _ Hc) as (Hc1 & Hc2 & Hc3).
    destruct (strictly_back_sides _ Hn) as (_ & _ & Hn3).
    unfold splitStep at 2. cbv zeta. unfold crosses.
    rewrite Hc1, Hc2, Hc3, Hn3, Hc. cbn [andb orb].
    rewrite IH by exact Hidx. now rewrite <- app_assoc.
Qed.

Lemma seq_bound (n : nat) : Forall (fun i => (i < n)%nat) (seq 0 n).
Proof. apply Forall_forall. intros i Hi. apply in_seq in Hi. lia. Qed.

Lemma fragment_self (polygon : Polygon) :
  fragment polygon (points polygon)
  = if (3 <=? length (points polygon))%nat then Some polygon else None.
Proof. unfold fragment. now destruct polygon. Qed.

(** X10. A polygon that does not touch the plane is not clipped: when every
    vertex is strictly in front of the plane, [splitPolygon] returns the
    polygon itself as the front fragment (absent if it has fewer than 3
    vertices) and no back fragment; when every vertex is strictly behind, it
    returns the polygon itself as the back fragment and no front fragment. *)
Theorem splitPolygon_one_sided (polygon : Polygon) (part : Partition) :
  (Forall (fun pt => strictlyFront part pt = true) (points polygon) ->
   splitPolygon polygon part
   = (if (3 <=? length (points polygon))%nat then Some polygon else None, None)) /\
  (Forall (fun pt => strictlyBack part pt = true) (points polygon) ->
   splitPolygon polygon part
   = (None, if (3 <=? length (points polygon))%nat then Some polygon else None)).
Proof.
  split; intros Hall; rewrite splitPolygon_fragments; unfold splitLists.
  - rewrite (splitFold_front_only _ _ Hall _ [] [] (seq_bound _)).
    cbn [fst snd app]. rewrite map_nth_seq, fragment_self. reflexivity.
  - rewrite (splitFold_back_only _ _ Hall _ [] [] (seq_bound _)).
    cbn [fst snd app]. rewrite map_nth_seq, fragment_self. reflexivity.
Qed.

Lemma splitPolygon_one_sided_witness :
  splitPolygon squareB partitionA = (Some squareB, None) /\
  splitPolygon squareC partitionA = (None, Some squareC).
Proof.
  split.
  - apply (proj1 (splitPolygon_one_sided squareB partitionA)).
    vm_compute. repeat constructor.
  - apply (proj2 (splitPolygon_one_sided squareC partitionA)).
    vm_compute. repeat constructor.
Defined.

(** *** Inserting a polygon that is not split *)

Lemma routes_unfold (node : BSPNode) (polygon : Polygon) :
  routes node polygon =
  match classifyPolygon polygon (partition node) with
  | COPLANAR => true
  | FRONT => match front node with Some c => routes c polygon | None => true end
  | BACK => match back node with Some c => routes c polygon | None => true end
  | SPANNING => false
  end.
Proof. now destruct node. Qed.

Lemma _insertHelper_routes (node : BSPNode) :
  forall polygon,
    (2 <= length (points polygon))%nat ->
    routes node polygon = true ->
    exists node',
      (forall fuel, (heightNode node <= fuel)%nat ->
                    _insertHelper fuel node polygon = (node', Returned)) /\
      Permutation (allPolygons (Some node')) (polygon :: allPolygons (Some node)) /\
      (countNode node' <= S (countNode node))%nat /\
      (heightNode node' <= S (heightNode node))%nat.
Proof.
  induction node as [part f b ps IHf IHb] using BSPNode_nested_ind.
  intros polygon Hlen Hr. rewrite routes_unfold in Hr. cbn [partition front back] in Hr.
  destruct (createPartition_Normal polygon Hlen) as [np Hnp].
  assert (Hfuel : forall fuel, (heightNode (Node part f b ps) <= fuel)%nat ->
             exists fuel', fuel = S fuel' /\
               (getHeight f <= fuel')%nat /\ (getHeight b <= fuel')%nat).
  { intros fuel H. rewrite heightNode_unfold in H. cbn [front back] in H.
    destruct fuel as [|fuel']; [lia|]. exists fuel'. repeat split; lia. }
  change (countNode (Node part f b ps)) with (countNodes (Some (Node part f b ps))).
  change (heightNode (Node part f b ps)) with (getHeight (Some (Node part f b ps))).
  rewrite countNodes_Some, getHeight_Some, allPolygons_node. cbn [front back].
  destruct (classifyPolygon polygon part) eqn:Hc; [| | |discriminate].
  - destruct f as [c|].
    + destruct (IHf polygon Hlen Hr) as (c' & Hrun & Hperm & Hcount & Hheight).
      exists (Node part (Some c') b ps). split; [|split; [|split]].
      * intros fuel H. destruct (Hfuel fuel H) as (fuel' & -> & Hhf & _).
        rewrite _insertHelper_S. cbn [partition front back polygons].
        rewrite Hc, (Hrun fuel' Hhf). reflexivity.
      * rewrite allPolygons_node, Hperm. cbn [app].
        symmetry. apply Permutation_middle.
      * change (countNode (Node part (Some c') b ps))
          with (countNodes (Some (Node part (Some c') b ps))).
        rewrite countNodes_Some. cbn [front back countNodes]. lia.
      * change (heightNode (Node part (Some c') b ps))
          with (getHeight (Some (Node part (Some c') b ps))).
        rewrite getHeight_Some. cbn [front back getHeight]. lia.
    + exists (Node part (Some (leaf np polygon)) b ps). split; [|split; [|split]].
      * intros fuel H. destruct (Hfuel fuel H) as (fuel' & -> & _).
        rewrite _insertHelper_S. cbn [partition front back polygons].
        rewrite Hc, Hnp. reflexivity.
      * rewrite allPolygons_node, allPolygons_leaf. cbn [allPolygons allNodes flat_map app].
        symmetry. apply Permutation_middle.
      * change (countNode (Node part (Some (leaf np polygon)) b ps))
          with (countNodes (Some (Node part (Some (leaf np polygon)) b ps))).
        rewrite countNodes_Some. cbn [front back countNodes countNode leaf]. lia.
      * change (heightNode (Node part (Some (leaf np polygon)) b ps))
          with (getHeight (Some (Node part (Some (leaf np polygon)) b ps))).
        rewrite getHeight_Some. cbn [front back getHeight heightNode leaf]. lia.
  - destruct b as [c|].
    + destruct (IHb polygon Hlen Hr) as (c' & Hrun & Hperm & Hcount & Hheight).
      exists (Node part f (Some c') ps). split; [|split; [|split]].
      * intros fuel H. destruct (Hfuel fuel H) as (fuel' & -> & _ & Hhb).
        rewrite _insertHelper_S. cbn [partition front back polygons].
        rewrite Hc, (Hrun fuel' Hhb). reflexivity.
      * rewrite allPolygons_node, Hperm.
        rewrite !app_assoc. symmetry. apply Permutation_middle.
      * change (countNode (Node part f (Some c') ps))
          with (countNodes (Some (Node part f (Some c') ps))).
        rewrite countNodes_Some. cbn [front back countNodes]. lia.
      * change (heightNode (Node part f (Some c') ps))
          with (getHeight (Some (Node part f (Some c') ps))).
        rewrite getHeight_Some. cbn [front back getHeight]. lia.
    + exists (Node part f (Some (leaf np polygon)) ps). split; [|split; [|split]].
      * intros fuel H. destruct (Hfuel fuel H) as (fuel' & -> & _).
        rewrite _insertHelper_S. cbn [partition front back polygons].
        rewrite Hc, Hnp. reflexivity.
      * rewrite allPolygons_node, allPolygons_leaf.
        cbn [allPolygons allNodes flat_map]. rewrite app_nil_r, !app_assoc.
        symmetry. apply Permutation_cons_append.
      * change (countNode (Node part f (Some (leaf np polygon)) ps))
          with (countNodes (Some (Node part f (Some (leaf np polygon)) ps))).
        rewrite countNodes_Some. cbn [front back countNodes countNode leaf]. lia.
      * change (heightNode (Node part f (Some (leaf np polygon)) ps))
          with (getHeight (Some (Node part f (Some (leaf np polygon)) ps))).
        rewrite getHeight_Some. cbn [front back getHeight heightNode leaf]. lia.
  - exists (Node part f b (ps ++ [polygon])). split; [|split; [|split]].
    + intros fuel H. destruct (Hfuel fuel H) as (fuel' & -> & _).
      now apply insert_coplanar.
    + rewrite allPolygons_node, <- app_assoc. cbn [app].
      symmetry. apply Permutation_middle.
    + change (countNode (Node part f b (ps ++ [polygon])))
        with (countNodes (Some (Node part f b (ps ++ [polygon])))).
      rewrite countNodes_Some. cbn [front back]. lia.
    + change (heightNode (Node part f b (ps ++ [polygon])))
        with (getHeight (Some (Node part f b (ps ++ [polygon])))).
      rewrite getHeight_Some. cbn [front back]. lia.
Qed.

(** X11. A polygon with at least 2 vertices that no node on its way
    classifies as SPANNING is stored whole, exactly once: [insert] returns
    (within a recursion depth of the tree's height), the stored polygons
    afterwards are the polygon and those stored before, so for every viewpoint
    the render order contains it and is one longer, and the tree has gained
    at most one node and one level. *)
Theorem insert_stores_unsplit_polygon (tree : BSPTree) (polygon : Polygon) :
  (2 <= length (points polygon))%nat ->
  match root tree with Some r => routes r polygon | None => true end = true ->
  exists tree',
    (forall fuel, (getHeight (root tree) <= fuel)%nat ->
                  insert fuel tree polygon = (tree', Returned)) /\
    Permutation (allPolygons (root tree')) (polygon :: allPolygons (root tree)) /\
    (forall viewpoint,
        In polygon (renderOrder tree' viewpoint) /\
        length (renderOrder tree' viewpoint) = S (length (renderOrder tree viewpoint))) /\
    (countNodes (root tree') <= S (countNodes (root tree)))%nat /\
    (getHeight (root tree') <= S (getHeight (root tree)))%nat.
Proof.
  intros Hlen Hr.
  assert (Hview : forall tree', 
             Permutation (allPolygons (root tree')) (polygon :: allPolygons (root tree)) ->
             forall viewpoint,
               In polygon (renderOrder tree' viewpoint) /\
               length (renderOrder tree' viewpoint)
               = S (length (renderOrder tree viewpoint))).
  { intros tree' Hperm viewpoint.
    pose proof (renderOrder_stored tree' viewpoint) as Hp'.
    pose proof (Permutation_length Hp') as Hl'.
    pose proof (Permutation_length (renderOrder_stored tree viewpoint)) as Hl.
    split.
    - eapply Permutation_in; [symmetry; exact Hp'|].
      eapply Permutation_in; [symmetry; exact Hperm|]. now left.
    - rewrite Hl', Hl, (Permutation_length Hperm). reflexivity. }
  destruct tree as [[r|]]; cbn [root] in *.
  - destruct (_insertHelper_routes r polygon Hlen Hr) as (r' & Hrun & Hperm & Hc & Hh).
    exists (mkTree (Some r')). split; [|split; [|split; [|split]]].
    + intros fuel Hfuel. unfold insert. cbn [root]. now rewrite (Hrun fuel Hfuel).
    + exact Hperm.
    + now apply Hview.
    + exact Hc.
    + exact Hh.
  - destruct (createPartition_Normal polygon Hlen) as [part Hpart].
    exists (mkTree (Some (leaf part polygon))). split; [|split; [|split; [|split]]].
    + intros fuel _. unfold insert. cbn [root]. now rewrite Hpart.
    + reflexivity.
    + now apply Hview.
    + cbn. lia.
    + cbn. lia.
Qed.

Lemma insert_stores_unsplit_polygon_witness :
  exists tree',
    insert 2 sceneTree squareB = (tree', Returned) /\
    In squareB (renderOrder tree' (mkPoint 5 50)).
Proof.
  destruct (insert_stores_unsplit_polygon sceneTree squareB) as (tree' & Hrun & _ & Hview & _).
  - vm_compute. lia.
  - vm_compute. reflexivity.
  - exists tree'. split; [apply Hrun; vm_compute; lia | apply Hview].
Defined.

(** *** A node whose normal is NaN *)

Lemma mul_nan_r (v : float) : v * nan = nan.
Proof.
  apply Prim2SF_inj. rewrite mul_spec.
  assert (E : Prim2SF nan = S754_nan) by (vm_compute; reflexivity).
  rewrite E. unfold SF64mul, SFmul. now destruct (Prim2SF v).
Qed.

Lemma add_nan_l (v : float) : nan + v = nan.
Proof.
  apply Prim2SF_inj. rewrite add_spec.
  assert (E : Prim2SF nan = S754_nan) by (vm_compute; reflexivity).
  rewrite E. reflexivity.
Qed.

Lemma add_nan_r (v : float) : v + nan = nan.
Proof.
  apply Prim2SF_inj. rewrite add_spec.
  assert (E : Prim2SF nan = S754_nan) by (vm_compute; reflexivity).
  rewrite E. unfold SF64add, SFadd. now destruct (Prim2SF v).
Qed.

Lemma distance_nan (pt : Point) (part : Partition) :
  x (normal part) = nan \/ y (normal part) = nan ->
  pointToPlaneDistance pt part = nan.
Proof.
  unfold pointToPlaneDistance. cbv zeta.
  intros [-> | ->]; rewrite mul_nan_r; [apply add_nan_l | apply add_nan_r].
Qed.

Lemma classify_nan_normal (polygon : Polygon) (part : Partition) :
  x (normal part) = nan \/ y (normal part) = nan ->
  classifyPolygon polygon part = COPLANAR.
Proof.
  intros Hnan. rewrite classifyPolygon_of_counts, classifyCounts_filter. cbn [fst snd].
  rewrite !filter_none; [reflexivity| |]; intros pt _.
  - unfold isBack. now rewrite (distance_nan pt part Hnan).
  - unfold isFront. now rewrite (distance_nan pt part Hnan).
Qed.

Lemma insertAll_nan_root (part : Partition) (fuel : nat) :
  x (normal part) = nan \/ y (normal part) = nan ->
  forall polys f b ps,
    insertAll (S fuel) (mkTree (Some (Node part f b ps))) polys
    = (mkTree (Some (Node part f b (ps ++ polys))), Returned).
Proof.
  intros Hnan. induction polys as [|poly rest IH]; intros f b ps.
  - cbn [insertAll]. now rewrite app_nil_r.
  - cbn [insertAll]. unfold insert. cbn [root].
    rewrite (insert_coplanar part f b ps poly fuel (classify_nan_normal poly part Hnan)).
    rewrite IH, <- app_assoc. reflexivity.
Qed.

(** X12. A plane whose normal has a NaN component classifies every polygon
    as COPLANAR. So a node with such a plane takes every polygon that reaches
    it into its own collection and is visited between its front and its back
    subtree from every viewpoint; in particular, once the first polygon
    inserted has coinciding first two vertices (finite coordinates), every
    later polygon is appended to the root and the tree never grows. *)
Theorem nan_normal_swallows (part : Partition) :
  x (normal part) = nan \/ y (normal part) = nan ->
  (forall polygon, classifyPolygon polygon part = COPLANAR) /\
  (forall fuel f b ps polys,
      insertAll (S fuel) (mkTree (Some (Node part f b ps))) polys
      = (mkTree (Some (Node part f b (ps ++ polys))), Returned)) /\
  (forall viewpoint f b ps,
      visitOrder (Some (Node part f b ps)) viewpoint
      = visitOrder f viewpoint ++ [Node part f b ps] ++ visitOrder b viewpoint) /\
  (forall creator p rest fuel polys,
      points creator = p :: p :: rest ->
      is_finite (x p) = true -> is_finite (y p) = true ->
      insertAll (S fuel) emptyTree (creator :: polys)
      = (mkTree (Some (Node (nanPartition p) None None (creator :: polys))), Returned)).
Proof.
  intros Hnan. split; [|split; [|split]].
  - intros polygon. now apply classify_nan_normal.
  - intros fuel f b ps polys. now apply insertAll_nan_root.
  - intros viewpoint f b ps. rewrite visitOrder_Some. cbn [partition front back].
    rewrite (distance_nan viewpoint part Hnan). reflexivity.
  - intros creator p rest fuel polys Hpts Hx Hy.
    cbn [insertAll]. unfold insert at 1. cbn [root emptyTree].
    rewrite (createPartition_zero_edge creator p rest Hpts Hx Hy). unfold leaf.
    rewrite (insertAll_nan_root (nanPartition p) fuel (or_introl eq_refl)).
    reflexivity.
Qed.

Lemma nan_normal_swallows_witness :
  insertAll 1 emptyTree [degenerate; squareA; squareB; squareC]
  = (mkTree (Some (Node (nanPartition (mkPoint 5 5)) None None
                        [degenerate; squareA; squareB; squareC])), Returned).
Proof.
  destruct (nan_normal_swallows (nanPartition (mkPoint 5 5)) (or_introl eq_refl))
    as (_ & _ & _ & H).
  apply (H degenerate (mkPoint 5 5) [mkPoint 6 7] 0%nat [squareA; squareB; squareC]);
    reflexivity.
Defined.

(** *** A spanning polygon is cut in two *)

Lemma crossFrom_app_ge (l e : list number) :
  forall a, (crossFrom a l <= crossFrom a (l ++ e))%nat.
Proof.
  induction l as [|b l IH]; intros a; cbn [crossFrom app]; [lia|].
  specialize (IH b). lia.
Qed.

Lemma count_app_one (Z : number -> bool) (l : list number) (e : number) :
  Z e = false -> length (filter Z (l ++ [e])) = length (filter Z l).
Proof.
  intros He. rewrite filter_app. cbn [filter]. rewrite He. now rewrite app_nil_r.
Qed.

(** From a distance on side [A], a chain that reaches side [B] meets a
    distance on neither side or crosses the plane. *)
Lemma first_event (A B Z : number -> bool) :
  (forall a b, crosses a b = (A a && B b) || (B a && A b)) ->
  forall l c,
    Forall (signed A B Z) l -> A c = true ->
    (exists b, In b l /\ B b = true) ->
    (1 <= length (filter Z l) + crossFrom c l)%nat.
Proof.
  intros Hcr. induction l as [|v l IH]; intros c Hs Hc (b & Hin & Hb);
    [contradiction|].
  apply Forall_cons_iff in Hs as [Hv Hs]. cbn [filter crossFrom].
  destruct Hv as [(Ha & Hb' & Hz)|[(Ha & Hb' & Hz)|(Ha & Hb' & Hz)]]; rewrite Hz.
  - destruct Hin as [->|Hin]; [congruence|].
    specialize (IH v Hs Ha (ex_intro _ b (conj Hin Hb))). lia.
  - rewrite Hcr, Hc, Hb'. cbn. lia.
  - cbn [length]. lia.
Qed.

Lemma crosses_swap (A B : number -> bool) :
  (forall a b, crosses a b = (A a && B b) || (B a && A b)) ->
  forall a b, crosses a b = (B a && A b) || (A a && B b).
Proof. intros H a b. rewrite H. apply orb_comm. Qed.

Lemma signed_swap (A B Z : number -> bool) (l : list number) :
  Forall (signed A B Z) l -> Forall (signed B A Z) l.
Proof.
  apply Forall_impl. intros d [H|[H|H]]; unfold signed; tauto.
Qed.

(** A chain holding distances on both sides has such an event, wherever it
    is entered from. *)
Lemma some_event (A B Z : number -> bool) :
  (forall a b, crosses a b = (A a && B b) || (B a && A b)) ->
  forall l c,
    Forall (signed A B Z) l ->
    (exists a, In a l /\ A a = true) ->
    (exists b, In b l /\ B b = true) ->
    (1 <= length (filter Z l) + crossFrom c l)%nat.
Proof.
  intros Hcr l c Hs (a & Hina & Ha) (b & Hinb & Hb).
  destruct l as [|v l]; [contradiction|].
  pose proof Hs as Hall. apply Forall_cons_iff in Hs as [Hv Hs]. cbn [filter crossFrom].
  destruct Hv as [(Hva & Hvb & Hz)|[(Hva & Hvb & Hz)|(Hva & Hvb & Hz)]]; rewrite Hz.
  - destruct Hinb as [->|Hinb]; [congruence|].
    pose proof (first_event A B Z Hcr l v Hs Hva (ex_intro _ b (conj Hinb Hb))). lia.
  - destruct Hina as [->|Hina]; [congruence|].
    pose proof (first_event B A Z (crosses_swap A B Hcr) l v (signed_swap A B Z l Hs)
                  Hvb (ex_intro _ a (conj Hina Ha))). lia.
  - cbn [length]. lia.
Qed.

(** A chain that leaves side [A], reaches side [B] and comes back to side
    [A] has two. *)
Lemma two_events (A B Z : number -> bool) :
  (forall a b, crosses a b = (A a && B b) || (B a && A b)) ->
  forall l c e,
    Forall (signed A B Z) l -> A c = true ->
    A e = true -> B e = false -> Z e = false ->
    (exists b, In b l /\ B b = true) ->
    (2 <= length (filter Z l) + crossFrom c (l ++ [e]))%nat.
Proof.
  intros Hcr. induction l as [|v l IH]; intros c e Hs Hc Hea Heb Hez (b & Hin & Hb);
    [contradiction|].
  apply Forall_cons_iff in Hs as [Hv Hs]. cbn [filter crossFrom app].
  assert (Hrest : B v = true \/ Z v = true ->
                  (1 <= length (filter Z l) + crossFrom v (l ++ [e]))%nat).
  { intros Hv'. destruct Hv' as [Hvb|Hvz].
    - pose proof (first_event B A Z (crosses_swap A B Hcr) (l ++ [e]) v) as H.
      rewrite (count_app_one Z l e Hez) in H. apply H; [| exact Hvb |].
      + apply Forall_app. split; [now apply signed_swap|].
        constructor; [|constructor]. unfold signed. tauto.
      + exists e. split; [apply in_or_app; right; now left | exact Hea].
    - destruct Hin as [->|Hin].
      { destruct Hv as [H|[H|H]]; destruct H as (_ & H1 & H2); congruence. }
      pose proof (some_event A B Z Hcr (l ++ [e]) v) as H.
      rewrite (count_app_one Z l e Hez) in H. apply H.
      + apply Forall_app. split; [exact Hs|].
        constructor; [|constructor]. unfold signed. tauto.
      + exists e. split; [apply in_or_app; right; now left | exact Hea].
      + exists b. split; [apply in_or_app; now left | exact Hb]. }
  destruct Hv as [(Hva & Hvb & Hz)|[(Hva & Hvb & Hz)|(Hva & Hvb & Hz)]]; rewrite Hz.
  - destruct Hin as [->|Hin]; [congruence|].
    specialize (IH v e Hs Hva Hea Heb Hez (ex_intro _ b (conj Hin Hb))). lia.
  - rewrite Hcr, Hc, Hvb. cbn [andb orb]. specialize (Hrest (or_introl Hvb)). lia.
  - cbn [length]. specialize (Hrest (or_intror Hz)). lia.
Qed.

(** Around a closed chain holding distances on both sides there are two. *)
Lemma closed_chain_events (d0 : number) (rest : list number) :
  Forall (signed positive negative isZero) (d0 :: rest) ->
  (exists a, In a (d0 :: rest) /\ positive a = true) ->
  (exists b, In b (d0 :: rest) /\ negative b = true) ->
  (2 <= length (filter isZero (d0 :: rest)) + crossFrom d0 (rest ++ [d0]))%nat.
Proof.
  intros Hs (a & Hina & Ha) (b & Hinb & Hb).
  assert (Hcr : forall u v, crosses u v
                 = (positive u && negative v) || (negative u && positive v))
    by reflexivity.
  pose proof Hs as Hall. apply Forall_cons_iff in Hs as [H0 Hs]. cbn [filter].
  destruct H0 as [(Hp & Hn & Hz)|[(Hp & Hn & Hz)|(Hp & Hn & Hz)]]; rewrite Hz.
  - destruct Hinb as [->|Hinb]; [congruence|].
    exact (two_events positive negative isZero Hcr rest d0 d0 Hs Hp Hp Hn Hz
             (ex_intro _ b (conj Hinb Hb))).
  - destruct Hina as [->|Hina]; [congruence|].
    exact (two_events negative positive isZero (crosses_swap _ _ Hcr) rest d0 d0
             (signed_swap _ _ _ rest Hs) Hn Hn Hp Hz (ex_intro _ a (conj Hina Ha))).
  - destruct Hina as [->|Hina]; [congruence|].
    destruct Hinb as [->|Hinb]; [congruence|].
    pose proof (some_event positive negative isZero Hcr rest d0 Hs
                  (ex_intro _ a (conj Hina Ha)) (ex_intro _ b (conj Hinb Hb))).
    pose proof (crossFrom_app_ge rest [d0] d0). cbn [length]. lia.
Qed.

Lemma splitFold_lengths (pts : list Point) (part : Partition) (idx : list nat) :
  forall fp bp,
    let r := fold_left (splitStep pts part) idx (fp, bp) in
    (length (fst r) =
     length fp + length (filter (fun i => frontSide part (nth i pts origin)) idx)
     + length (filter (edgeCrosses pts part) idx))%nat /\
    (length (snd r) =
     length bp + length (filter (fun i => backSide part (nth i pts origin)) idx)
     + length (filter (edgeCrosses pts part) idx))%nat.
Proof.
  cbv zeta. induction idx as [|i idx IH]; intros fp bp.
  - cbn [fold_left filter length fst snd]. lia.
  - cbn [fold_left filter].
    assert (Hstep : exists fp1 bp1,
               splitStep pts part (fp, bp) i = (fp1, bp1) /\
               (length fp1 = length fp
                  + (if frontSide part (nth i pts origin) then 1 else 0)
                  + (if edgeCrosses pts part i then 1 else 0))%nat /\
               (length bp1 = length bp
                  + (if backSide part (nth i pts origin) then 1 else 0)
                  + (if edgeCrosses pts part i then 1 else 0))%nat).
    { unfold splitStep, edgeCrosses, vertexDistance, frontSide, backSide. cbv zeta.
      destruct (0 <=? pointToPlaneDistance (nth i pts origin) part);
        destruct (pointToPlaneDistance (nth i pts origin) part <=? 0);
        destruct (crosses _ _); eexists _, _; (split; [reflexivity|]);
        rewrite ?length_app; cbn [length]; lia. }
    destruct Hstep as (fp1 & bp1 & -> & Hf & Hb).
    destruct (IH fp1 bp1) as [IHf IHb]. rewrite IHf, IHb, Hf, Hb.
    destruct (frontSide part (nth i pts origin));
      destruct (backSide part (nth i pts origin));
      destruct (edgeCrosses pts part i); cbn [length]; lia.
Qed.

Lemma splitLists_lengths (polygon : Polygon) (part : Partition) :
  (length (fst (splitLists polygon part))
   = length (filter (frontSide part) (points polygon)) + crossingEdges polygon part)%nat /\
  (length (snd (splitLists polygon part))
   = length (filter (backSide part) (points polygon)) + crossingEdges polygon part)%nat.
Proof.
  unfold splitLists, crossingEdges.
  destruct (splitFold_lengths (points polygon) part
              (seq 0 (length (points polygon))) [] []) as [Hf Hb].
  rewrite Hf, Hb, (filter_indices (frontSide part)), (filter_indices (backSide part)).
  cbn [length]. lia.
Qed.

Lemma filter_shift (f : nat -> bool) (l : list nat) :
  length (filter f (map S l)) = length (filter (fun i => f (S i)) l).
Proof.
  induction l as [|i l IH]; [reflexivity|].
  cbn [map filter]. destruct (f (S i)); cbn [length]; now rewrite IH.
Qed.

Lemma chain_crossings (part : Partition) (c : list Point) :
  forall a,
    length (filter (fun i => crosses (pointToPlaneDistance (nth i (a :: c) origin) part)
                                     (pointToPlaneDistance (nth (S i) (a :: c) origin) part))
                   (seq 0 (length c)))
    = crossFrom (pointToPlaneDistance a part)
                (map (fun pt => pointToPlaneDistance pt part) c).
Proof.
  induction c as [|b c IH]; intros a; [reflexivity|].
  cbn [length seq filter map crossFrom]. rewrite <- seq_shift, <- (IH b).
  cbn [nth].
  destruct (crosses (pointToPlaneDistance a part) (pointToPlaneDistance b part));
    cbn [length]; rewrite filter_shift; reflexivity.
Qed.

(** The crossing edges of a polygon, counted along its closed chain. *)
Lemma crossingEdges_chain (polygon : Polygon) (part : Partition) (p0 : Point)
    (rest : list Point) :
  points polygon = p0 :: rest ->
  crossingEdges polygon part
  = crossFrom (pointToPlaneDistance p0 part)
              (map (fun pt => pointToPlaneDistance pt part) rest
               ++ [pointToPlaneDistance p0 part]).
Proof.
  intros Hpts. unfold crossingEdges. rewrite Hpts.
  replace (map (fun pt => pointToPlaneDistance pt part) rest
           ++ [pointToPlaneDistance p0 part])
    with (map (fun pt => pointToPlaneDistance pt part) (rest ++ [p0]))
    by (now rewrite map_app).
  rewrite <- chain_crossings.
  replace (length (rest ++ [p0])) with (length (p0 :: rest))
    by (rewrite length_app; cbn [length]; lia).
  f_equal. apply filter_ext_in. intros i Hi. apply in_seq in Hi.
  unfold edgeCrosses, vertexDistance.
  change (p0 :: rest ++ [p0]) with ((p0 :: rest) ++ [p0]).
  assert (Hcurr : nth i ((p0 :: rest) ++ [p0]) origin = nth i (p0 :: rest) origin)
    by (apply app_nth1; lia).
  assert (Hnext : nth (S i) ((p0 :: rest) ++ [p0]) origin
                  = nth ((i + 1) mod length (p0 :: rest)) (p0 :: rest) origin).
  { destruct (Nat.eq_dec (S i) (length (p0 :: rest))) as [E|E].
    - replace (i + 1)%nat with (length (p0 :: rest)) by lia.
      rewrite Nat.Div0.mod_same, app_nth2 by lia.
      rewrite E, Nat.sub_diag. reflexivity.
    - rewrite Nat.mod_small by lia. replace (i + 1)%nat with (S i) by lia.
      apply app_nth1. lia. }
  now rewrite Hcurr, Hnext.
Qed.

Lemma filter_map_count {A B : Type} (P : B -> bool) (g : A -> B) (l : list A) :
  length (filter (fun a => P (g a)) l) = length (filter P (map g l)).
Proof.
  induction l as [|a l IH]; [reflexivity|].
  cbn [map filter]. destruct (P (g a)); cbn [length]; now rewrite IH.
Qed.

Lemma signed_distance (d : float) :
  is_nan d = false -> signed positive negative isZero d.
Proof.
  intros Hn. unfold signed, positive, negative, isZero.
  destruct (sign_cases d) as [(-> & -> & -> & _)|[(-> & -> & -> & _)|
                              [(-> & -> & -> & _)|(_ & _ & _ & H)]]];
    [tauto | tauto | tauto | congruence].
Qed.

Lemma beyond_epsilon (d : float) :
  ((EPSILON <? d) = true -> (0 <? d) = true) /\
  ((d <? - EPSILON) = true -> (d <? 0) = true).
Proof.
  rewrite !ltb_spec, Prim2SF_zero.
  assert (E1 : Prim2SF EPSILON = S754_finite false 7205759403792794 (-56))
    by (vm_compute; reflexivity).
  assert (E2 : Prim2SF (- EPSILON) = S754_finite true 7205759403792794 (-56))
    by (vm_compute; reflexivity).
  rewrite E1, E2. unfold SFltb.
  destruct (Prim2SF d) as [s|s| |s m e]; try destruct s; cbn [SFcompare];
    split; solve [discriminate | reflexivity].
Qed.

Lemma filter_nonempty {A : Type} (P : A -> bool) (l : list A) :
  (0 < length (filter P l))%nat -> exists a, In a l /\ P a = true.
Proof.
  destruct (filter P l) as [|a t] eqn:E; cbn [length]; [lia|]. intros _.
  exists a. apply filter_In. rewrite E. now left.
Qed.

Lemma filter_count_pos {A : Type} (P : A -> bool) (l : list A) (a : A) :
  In a l -> P a = true -> (1 <= length (filter P l))%nat.
Proof.
  intros Hin Hp. assert (H : In a (filter P l)) by (apply filter_In; auto).
  destruct (filter P l); [contradiction | cbn [length]; lia].
Qed.

Lemma side_cases (part : Partition) (pt : Point) :
  frontSide part pt = strictlyFront part pt || onPlane part pt /\
  backSide part pt = strictlyBack part pt || onPlane part pt /\
  (strictlyFront part pt = true -> onPlane part pt = false) /\
  (strictlyBack part pt = true -> onPlane part pt = false).
Proof.
  unfold frontSide, backSide, strictlyFront, strictlyBack, onPlane.
  rewrite leb_zero_l, leb_zero_r.
  destruct (sign_cases (pointToPlaneDistance pt part))
    as [(-> & -> & -> & _)|[(-> & -> & -> & _)|[(-> & -> & -> & _)|(-> & -> & -> & _)]]];
    repeat split; congruence.
Qed.

Lemma sides_split (part : Partition) (pts : list Point) :
  (length (filter (frontSide part) pts)
   = length (filter (strictlyFront part) pts) + length (filter (onPlane part) pts))%nat /\
  (length (filter (backSide part) pts)
   = length (filter (strictlyBack part) pts) + length (filter (onPlane part) pts))%nat.
Proof.
  induction pts as [|pt pts [IHf IHb]]; [split; reflexivity|].
  cbn [filter]. destruct (side_cases part pt) as (Hf & Hb & Hfz & Hbz).
  rewrite Hf, Hb.
  destruct (strictlyFront part pt); destruct (strictlyBack part pt);
    destruct (onPlane part pt); cbn [orb length];
    try (specialize (Hfz eq_refl); discriminate);
    try (specialize (Hbz eq_refl); discriminate); lia.
Qed.

(** X13. A SPANNING polygon none of whose vertices has a NaN distance is
    always cut into two polygons: [splitPolygon] returns both a front and a
    back fragment, each with at least 3 vertices (a vertex on its side and,
    around the polygon, two points where it meets the plane). *)
Theorem splitPolygon_spanning_two_fragments (polygon : Polygon) (part : Partition) :
  classifyPolygon polygon part = SPANNING ->
  nanVertices polygon part = 0%nat ->
  exists f b,
    splitPolygon polygon part = (Some f, Some b) /\
    (3 <= length (points f))%nat /\ (3 <= length (points b))%nat.
Proof.
  intros Hc Hnan.
  (* a vertex beyond each side *)
  rewrite classifyPolygon_of_counts, classifyCounts_filter in Hc. cbn [fst snd] in Hc.
  assert (Hfront : exists a, In a (points polygon) /\ strictlyFront part a = true).
  { destruct (filter_nonempty (isFront part) (points polygon)) as (a & Hin & Ha).
    - destruct (length (filter (isFront part) (points polygon)));
        [destruct (length (filter (isBack part) (points polygon))); discriminate | lia].
    - exists a. split; [exact Hin|]. now apply (proj1 (beyond_epsilon _)). }
  assert (Hback : exists a, In a (points polygon) /\ strictlyBack part a = true).
  { destruct (filter_nonempty (isBack part) (points polygon)) as (a & Hin & Ha).
    - destruct (length (filter (isBack part) (points polygon)));
        [destruct (length (filter (isFront part) (points polygon))); discriminate | lia].
    - exists a. split; [exact Hin|]. now apply (proj2 (beyond_epsilon _)). }
  (* no NaN distance *)
  assert (Hsigned : Forall (signed positive negative isZero)
                           (map (fun pt => pointToPlaneDistance pt part) (points polygon))).
  { apply Forall_forall. intros d Hd. apply in_map_iff in Hd as (pt & <- & Hin).
    apply signed_distance. destruct (is_nan (pointToPlaneDistance pt part)) eqn:E; [|reflexivity].
    pose proof (filter_count_pos (nanDistance part) (points polygon) pt Hin E) as H.
    unfold nanVertices in Hnan. lia. }
  (* two events around the polygon *)
  destruct (points polygon) as [|p0 rest] eqn:Hpts;
    [destruct Hfront as (a & [] & _)|].
  assert (Hevents : (2 <= onPlaneVertices polygon part + crossingEdges polygon part)%nat).
  { rewrite (crossingEdges_chain polygon part p0 rest Hpts).
    unfold onPlaneVertices, onPlane. rewrite Hpts.
    rewrite (filter_map_count isZero (fun pt => pointToPlaneDistance pt part)).
    cbn [map] in Hsigned |- *. apply closed_chain_events; [exact Hsigned| |].
    - destruct Hfront as (a & Hin & Ha).
      exists (pointToPlaneDistance a part). split; [|exact Ha].
      apply (in_map (fun pt => pointToPlaneDistance pt part) (p0 :: rest) a Hin).
    - destruct Hback as (a & Hin & Ha).
      exists (pointToPlaneDistance a part). split; [|exact Ha].
      apply (in_map (fun pt => pointToPlaneDistance pt part) (p0 :: rest) a Hin). }
  destruct (splitLists_lengths polygon part) as [Hlf Hlb].
  destruct (sides_split part (points polygon)) as [Hsf Hsb].
  destruct Hfront as (a & Hina & Ha). destruct Hback as (b & Hinb & Hb).
  rewrite <- Hpts in Hina, Hinb.
  pose proof (filter_count_pos (strictlyFront part) (points polygon) a Hina Ha) as Hpa.
  pose proof (filter_count_pos (strictlyBack part) (points polygon) b Hinb Hb) as Hpb.
  unfold onPlaneVertices in Hevents.
  rewrite splitPolygon_fragments. unfold fragment.
  assert (H3f : (3 <=? length (fst (splitLists polygon part)))%nat = true)
    by (apply Nat.leb_le; lia).
  assert (H3b : (3 <=? length (snd (splitLists polygon part)))%nat = true)
    by (apply Nat.leb_le; lia).
  rewrite H3f, H3b. eexists _, _. split; [reflexivity|].
  cbn [points]. apply Nat.leb_le in H3f, H3b. auto.
Qed.

Lemma splitPolygon_spanning_two_fragments_witness :
  exists f b, splitPolygon crossedSquare partitionA = (Some f, Some b) /\
              (3 <= length (points f))%nat /\ (3 <= length (points b))%nat.
Proof.
  apply (splitPolygon_spanning_two_fragments crossedSquare partitionA);
    vm_compute; reflexivity.
Defined.

(** *** The tree drawing *)

Lemma drawTreeStructure_Some (node : BSPNode) (px py level xOffset : number) :
  drawTreeStructure (Some node) px py level xOffset =
  (match front node with
   | None => []
   | Some c =>
       LineElement Front px py px (py + nodeRadius) (px - xOffset)
                   (py + verticalGap - nodeRadius)
       :: drawTreeStructure (Some c) (px - xOffset) (py + verticalGap) (level + 1)
                            (xOffset / 2)
   end)
  ++ (match back node with
      | None => []
      | Some c =>
          LineElement Back px py px (py + nodeRadius) (px + xOffset)
                      (py + verticalGap - nodeRadius)
          :: drawTreeStructure (Some c) (px + xOffset) (py + verticalGap) (level + 1)
                               (xOffset / 2)
      end)
  ++ [NodeElement px py (length (polygons node)) (x (normal (partition node)))
                  (y (normal (partition node)))].
Proof. destruct node as [part f b ps]. reflexivity. Qed.

Lemma drawTree_counts (node : option BSPNode) :
  forall px py level xOffset,
    let els := drawTreeStructure node px py level xOffset in
    length (filter isGlyph els) = countNodes node /\
    match node with
    | None => length (filter isLine els) = 0%nat
    | Some _ => S (length (filter isLine els)) = countNodes node
    end /\
    list_sum (map labelOf els) = length (allPolygons node).
Proof.
  induction node as [|n IHf IHb] using subtree_ind; intros px py level xOffset; cbv zeta.
  - cbn. auto.
  - rewrite drawTreeStructure_Some, countNodes_Some, allPolygons_Some.
    specialize (IHf (px - xOffset) (py + verticalGap) (level + 1) (xOffset / 2)).
    specialize (IHb (px + xOffset) (py + verticalGap) (level + 1) (xOffset / 2)).
    cbv zeta in IHf, IHb.
    rewrite !filter_app, !map_app, !list_sum_app, !length_app.
    destruct (front n) as [cf|], (back n) as [cb|];
      destruct IHf as (Hf1 & Hf2 & Hf3); destruct IHb as (Hb1 & Hb2 & Hb3);
      cbn [filter isGlyph isLine negb map labelOf list_sum length];
      change (countNodes None) with 0%nat in *;
      change (allPolygons None) with (@nil Polygon) in *;
      unfold list_sum in *; cbn [fold_right length]; repeat split; lia.
Qed.

(** X14. The tree view draws every node once and every parent-child link
    once: for a tree with n > 0 nodes, [drawTreeStructure] returns n node
    glyphs and n - 1 lines, 2n - 1 elements in all, the last being the glyph
    of the root at the position given; the polygon counts on the glyphs add
    up to the number of polygons stored in the tree; the empty tree is drawn
    as nothing. *)
Theorem drawTreeStructure_counts (node : option BSPNode) (px py level xOffset : number) :
  let els := drawTreeStructure node px py level xOffset in
  length (filter isGlyph els) = countNodes node /\
  length (filter isLine els) = (countNodes node - 1)%nat /\
  length els = (2 * countNodes node - 1)%nat /\
  list_sum (map labelOf els) = length (allPolygons node) /\
  (forall n, node = Some n ->
     exists before,
       els = before ++ [NodeElement px py (length (polygons n))
                                    (x (normal (partition n))) (y (normal (partition n)))]).
Proof.
  cbv zeta. destruct node as [n|].
  - destruct (drawTree_counts (Some n) px py level xOffset) as (Hg & Hl & Hs).
    assert (Hlen : forall l : list Element,
               length l = (length (filter isGlyph l) + length (filter isLine l))%nat).
    { induction l as [|e l IH]; [reflexivity|].
      cbn [filter]. unfold isLine at 1. destruct (isGlyph e); cbn [negb length]; lia. }
    split; [exact Hg|]. split; [lia|]. split; [rewrite Hlen; lia|]. split; [exact Hs|].
    intros n' [= <-].
    rewrite drawTreeStructure_Some, app_assoc. eexists. reflexivity.
  - cbn. repeat split. intros n H. discriminate.
Qed.

(** *** The animation *)

Lemma session_eta (s : Session) :
  mkSession (bspTree s) (statePolygons s) (viewpoint s) (stateRenderOrder s)
            (isAnimating s) (currentStep s) (stats s) (isDragging s) = s.
Proof. now destruct s. Qed.

Lemma sameDeps_refl (s : Session) : sameDeps (animationDeps s) (animationDeps s) = true.
Proof.
  unfold sameDeps, animationDeps. rewrite !Nat.eqb_refl.
  now destruct (isAnimating s).
Qed.

Lemma sameDeps_eq (s t : Session) :
  sameDeps (animationDeps s) (animationDeps t) = true ->
  isAnimating s = isAnimating t /\ currentStep s = currentStep t /\
  length (stateRenderOrder s) = length (stateRenderOrder t).
Proof.
  unfold sameDeps, animationDeps. intros H.
  apply andb_true_iff in H as [H Hn]. apply andb_true_iff in H as [Ha Hc].
  apply Bool.eqb_prop in Ha. apply Nat.eqb_eq in Hc. apply Nat.eqb_eq in Hn. auto.
Qed.

(** A settled state is one that the effect leaves alone, and the effect
    leaves every state settled. *)
Lemma animationEffect_fixed (s : Session) : settled s = true -> animationEffect s = s.
Proof.
  unfold settled, animationEffect. intros H.
  destruct (isAnimating s) eqn:Ha; cbn [negb orb andb] in *.
  - now rewrite H.
  - destruct (length (stateRenderOrder s) <=? currentStep s)%nat; [|reflexivity].
    rewrite <- Ha. apply session_eta.
Qed.

Lemma animationEffect_settled (s : Session) : settled (animationEffect s) = true.
Proof.
  unfold animationEffect.
  destruct (isAnimating s && (currentStep s <? length (stateRenderOrder s))%nat) eqn:E.
  - unfold settled. apply andb_true_iff in E as [_ ->]. apply orb_true_r.
  - destruct (length (stateRenderOrder s) <=? currentStep s)%nat eqn:L; [reflexivity|].
    unfold settled. apply Nat.leb_gt in L. apply Nat.ltb_lt in L. rewrite L.
    apply orb_true_r.
Qed.

Lemma animationEffect_idempotent (s : Session) :
  animationEffect (animationEffect s) = animationEffect s.
Proof. apply animationEffect_fixed, animationEffect_settled. Qed.

Lemma rerender_settled (before after : Session) :
  settled before = true -> settled (rerender before after) = true.
Proof.
  intros Hs. unfold rerender.
  destruct (sameDeps (animationDeps before) (animationDeps after)) eqn:E.
  - apply sameDeps_eq in E as (Ha & Hc & Hn). unfold settled in *.
    now rewrite <- Ha, <- Hc, <- Hn.
  - apply animationEffect_settled.
Qed.

(** Between two events the effect has run whenever it had to. *)
Lemma rerender_effect (before after : Session) :
  settled before = true -> rerender before after = animationEffect after.
Proof.
  intros Hs. pose proof (rerender_settled before after Hs) as Hr. unfold rerender in *.
  destruct (sameDeps (animationDeps before) (animationDeps after));
    [now rewrite animationEffect_fixed | reflexivity].
Qed.

Lemma handle_settled (fuel : nat) (e : Event) (s : Session) :
  settled s = true -> settled (handle fuel e s) = true.
Proof. apply rerender_settled. Qed.

Lemma run_settled (fuel : nat) (events : list Event) :
  forall s, settled s = true -> settled (run fuel events s) = true.
Proof.
  induction events as [|e rest IH]; intros s Hs; [exact Hs|].
  cbn [run]. apply IH. now apply handle_settled.
Qed.

(** A timer that is pending fires: the step advances, and the effect that
    follows switches the animation off when the step was the last. *)
Lemma timer_step (fuel : nat) (s : Session) :
  isAnimating s = true ->
  (currentStep s < length (stateRenderOrder s))%nat ->
  handle fuel TimerFires s
  = mkSession (bspTree s) (statePolygons s) (viewpoint s) (stateRenderOrder s)
              (currentStep s + 1 <? length (stateRenderOrder s))%nat
              (currentStep s + 1) (stats s) (isDragging s).
Proof.
  intros Ha Hlt. unfold handle. rewrite rerender_effect.
  - cbn [handler]. unfold timerCallback, timerPending. rewrite Ha.
    apply Nat.ltb_lt in Hlt. rewrite Hlt. cbn [andb].
    unfold animationEffect. cbn [isAnimating currentStep stateRenderOrder].
    destruct (currentStep s + 1 <? length (stateRenderOrder s))%nat eqn:E;
      cbn [andb]; [reflexivity|].
    apply Nat.ltb_ge in E. apply Nat.leb_le in E. now rewrite E.
  - unfold settled. apply Nat.ltb_lt in Hlt. rewrite Hlt. apply orb_true_r.
Qed.

(** No timer is pending when the animation is off. *)
Lemma timer_idle (fuel : nat) (s : Session) :
  isAnimating s = false -> handle fuel TimerFires s = s.
Proof.
  intros Ha. unfold handle. cbn [handler]. unfold timerCallback, timerPending.
  rewrite Ha. cbn [andb]. unfold rerender. now rewrite sameDeps_refl.
Qed.

Lemma animation_start (fuel : nat) (s : Session) :
  settled s = true ->
  handle fuel AnimateRender s
  = mkSession (bspTree s) (statePolygons s) (viewpoint s) (stateRenderOrder s)
              (0 <? length (stateRenderOrder s))%nat 0 (stats s) (isDragging s).
Proof.
  intros Hs. unfold handle. rewrite rerender_effect by exact Hs.
  cbn [handler]. unfold animateRender, animationEffect.
  cbn [isAnimating currentStep stateRenderOrder andb].
  destruct (0 <? length (stateRenderOrder s))%nat eqn:E; [reflexivity|].
  apply Nat.ltb_ge in E. apply Nat.leb_le in E. now rewrite E.
Qed.

Lemma animation_steps (fuel : nat) (s : Session) (k : nat) :
  settled s = true ->
  Nat.iter k (handle fuel TimerFires) (handle fuel AnimateRender s)
  = mkSession (bspTree s) (statePolygons s) (viewpoint s) (stateRenderOrder s)
              (k <? length (stateRenderOrder s))%nat
              (Nat.min k (length (stateRenderOrder s))) (stats s) (isDragging s).
Proof.
  intros Hs. induction k as [|k IH].
  - cbn [Nat.iter nat_rect]. unfold Nat.iter. cbn [nat_rect].
    rewrite animation_start by exact Hs. reflexivity.
  - rewrite Nat.iter_succ, IH.
    destruct (k <? length (stateRenderOrder s))%nat eqn:E.
    + apply Nat.ltb_lt in E.
      rewrite timer_step; cbn [isAnimating currentStep stateRenderOrder];
        [|reflexivity|lia].
      rewrite Nat.min_l by lia. rewrite (Nat.min_l (S k)) by lia.
      now rewrite Nat.add_1_r.
    + rewrite timer_idle by reflexivity.
      apply Nat.ltb_ge in E.
      assert (E' : (S k <? length (stateRenderOrder s))%nat = false)
        by (apply Nat.ltb_ge; lia).
      rewrite E'. rewrite !Nat.min_r by lia. reflexivity.
Qed.

(** X15. The animation shows the render order one polygon more at each
    timer step and stops by itself. Started (by the Animate button) in a
    settled state whose render order has n polygons: after k < n timer
    callbacks it is running, a timer is pending and the first k polygons are
    shown, in painter's order; with the n-th callback - at once when n = 0 -
    it is switched off by the effect, without a further timer step, the whole
    render order is shown, the step counter stays at n and no timer is
    pending any more. Tree, polygon list and render order are not touched.
    Every state the component reaches is settled: the initial one, the one
    after mount, and the one after any sequence of events from a settled
    one. *)
Theorem animation_reveals (fuel : nat) (s : Session) :
  settled s = true ->
  let n := length (stateRenderOrder s) in
  let after k := Nat.iter k (handle fuel TimerFires) (handle fuel AnimateRender s) in
  (forall k, (k < n)%nat ->
     isAnimating (after k) = true /\ timerPending (after k) = true /\
     shownPolygons (after k) = firstn k (stateRenderOrder s)) /\
  (forall k, (n <= k)%nat ->
     isAnimating (after k) = false /\ timerPending (after k) = false /\
     shownPolygons (after k) = stateRenderOrder s /\ currentStep (after k) = n) /\
  (forall k, bspTree (after k) = bspTree s /\ statePolygons (after k) = statePolygons s /\
             stateRenderOrder (after k) = stateRenderOrder s) /\
  (settled initialSession = true /\ settled (mountEffect fuel initialSession) = true /\
   forall events t, settled t = true -> settled (run fuel events t) = true).
Proof.
  intros Hs. cbv zeta. split; [|split; [|split]].
  - intros k Hk. rewrite animation_steps by exact Hs.
    unfold timerPending, shownPolygons. cbn [isAnimating currentStep stateRenderOrder].
    rewrite Nat.min_l by lia. apply Nat.ltb_lt in Hk. rewrite Hk. repeat split.
  - intros k Hk. rewrite animation_steps by exact Hs.
    unfold timerPending, shownPolygons. cbn [isAnimating currentStep stateRenderOrder].
    rewrite Nat.min_r by lia. apply Nat.ltb_ge in Hk. rewrite Hk. repeat split.
  - intros k. rewrite animation_steps by exact Hs. repeat split.
  - split; [reflexivity|]. split; [|intros events t; apply run_settled].
    unfold mountEffect. cbn [bspTree initialSession].
    destruct (insertAll fuel emptyTree samplePolygons) as [tree o].
    destruct o; reflexivity.
Qed.

Lemma animation_reveals_witness :
  let s := mountEffect 8 initialSession in
  let after k := Nat.iter k (handle 8 TimerFires) (handle 8 AnimateRender s) in
  settled s = true /\ length (stateRenderOrder s) = 7%nat /\
  (isAnimating (after 6%nat) = true /\ timerPending (after 6%nat) = true /\
   shownPolygons (after 6%nat) = firstn 6%nat (stateRenderOrder s)) /\
  (isAnimating (after 7%nat) = false /\ timerPending (after 7%nat) = false /\
   shownPolygons (after 7%nat) = stateRenderOrder s /\ currentStep (after 7%nat) = 7%nat).
Proof.
  cbv zeta.
  assert (Hs : settled (mountEffect 8 initialSession) = true) by (vm_compute; reflexivity).
  assert (Hn : length (stateRenderOrder (mountEffect 8 initialSession)) = 7%nat)
    by (vm_compute; reflexivity).
  destruct (animation_reveals 8 (mountEffect 8 initialSession) Hs) as (Hrun & Hend & _).
  split; [exact Hs|]. split; [exact Hn|]. split.
  - apply Hrun. rewrite Hn. lia.
  - rewrite <- Hn at 3. apply Hend. rewrite Hn. lia.
Defined.

(** *** The component's state *)

Lemma insert_render_length (fuel : nat) (tree : BSPTree) (polygon : Polygon) (v v' : Point) :
  (length (renderOrder tree v)
   <= length (renderOrder (fst (insert fuel tree polygon)) v'))%nat.
Proof.
  rewrite (Permutation_length (renderOrder_stored tree v)).
  rewrite (Permutation_length (renderOrder_stored _ v')).
  pose proof (insert_extends fuel tree polygon) as Hext.
  destruct (root tree) as [r|]; [|apply Nat.le_0_l].
  cbn [slotExtends] in Hext.
  destruct (root (fst (insert fuel tree polygon))) as [r'|]; [|contradiction].
  apply (extends_sizes r r' Hext).
Qed.

Lemma insert_pieces (fuel : nat) (tree : BSPTree) (polygon : Polygon)
    (polys polys' : list Polygon) :
  (forall p, In p polys -> In p polys') -> In polygon polys' ->
  Forall (fun q => exists p, In p polys /\ pieceOf p q) (allPolygons (root tree)) ->
  Forall (fun q => exists p, In p polys' /\ pieceOf p q)
         (allPolygons (root (fst (insert fuel tree polygon)))).
Proof.
  intros Hincl Hin Hall.
  pose proof (insert_stores (fun q => exists p, In p polys /\ pieceOf p q)
                (pieceOf polygon) (pieceOf_front polygon) (pieceOf_back polygon)
                fuel tree polygon) as H.
  eapply Forall_impl; [|apply H].
  - intros q [(p & Hp & Hq)|Hq]; eauto.
  - unfold pieceOf. auto.
  - eapply Forall_impl; [|exact Hall]. intros q Hq. now left.
Qed.

Lemma addPolygon_consistent (fuel : nat) (newPoly : Polygon) (s : Session) :
  consistent s ->
  snd (insert fuel (bspTree s) newPoly) = Returned ->
  consistent (addPolygon fuel newPoly s).
Proof.
  intros (Hstats & Horder & Hstep & Hpieces) Hret. unfold addPolygon.
  pose proof (insert_render_length fuel (bspTree s) newPoly (viewpoint s) (viewpoint s))
    as Hlen.
  pose proof (insert_pieces fuel (bspTree s) newPoly (statePolygons s)
                (statePolygons s ++ [newPoly])
                (fun p H => in_or_app _ _ p (or_introl H))
                (in_or_app (statePolygons s) [newPoly] newPoly
                           (or_intror (in_eq newPoly []))) Hpieces)
    as Hp.
  destruct (insert fuel (bspTree s) newPoly) as [tree o]. cbn [fst snd] in *. subst o.
  unfold consistent. cbn. rewrite <- Horder in Hlen. repeat split; [lia | exact Hp].
Qed.

Lemma animationEffect_consistent (s : Session) :
  consistent s -> consistent (animationEffect s).
Proof.
  intros Hc. unfold animationEffect.
  destruct (isAnimating s && (currentStep s <? length (stateRenderOrder s))%nat);
    [exact Hc|].
  destruct (length (stateRenderOrder s) <=? currentStep s)%nat; [|exact Hc].
  destruct Hc as (Hstats & Horder & Hstep & Hpieces).
  unfold consistent; cbn; repeat split; assumption.
Qed.

Lemma rerender_consistent (before after : Session) :
  consistent after -> consistent (rerender before after).
Proof.
  intros Hc. unfold rerender.
  destruct (sameDeps (animationDeps before) (animationDeps after));
    [exact Hc | now apply animationEffect_consistent].
Qed.

Lemma handler_consistent (fuel : nat) (e : Event) (s : Session) :
  consistent s -> completes fuel e s -> consistent (handler fuel e s).
Proof.
  intros Hc Hcomp. destruct e as [r1 r2 r3 now colour| | | |pos|pos|]; cbn [handler].
  - now apply addPolygon_consistent.
  - unfold consistent. cbn. repeat split; constructor.
  - destruct Hc as (Hstats & Horder & Hstep & Hpieces).
    unfold consistent. cbn. repeat split; try assumption. lia.
  - unfold timerCallback, timerPending.
    destruct (isAnimating s && (currentStep s <? length (stateRenderOrder s))%nat) eqn:E;
      [|exact Hc].
    destruct Hc as (Hstats & Horder & Hstep & Hpieces).
    apply andb_true_iff in E as [_ E]. apply Nat.ltb_lt in E.
    unfold consistent. cbn. repeat split; try assumption. lia.
  - destruct Hc as (Hstats & Horder & Hstep & Hpieces).
    unfold handleMouseDown, consistent. cbn. repeat split; try assumption.
    rewrite (Permutation_length (renderOrder_stored (bspTree s) pos)).
    rewrite <- (Permutation_length (renderOrder_stored (bspTree s) (viewpoint s))).
    now rewrite <- Horder.
  - unfold handleMouseMove. destruct (isDragging s); [|exact Hc].
    destruct Hc as (Hstats & Horder & Hstep & Hpieces).
    unfold consistent. cbn. repeat split; try assumption.
    rewrite (Permutation_length (renderOrder_stored (bspTree s) pos)).
    rewrite <- (Permutation_length (renderOrder_stored (bspTree s) (viewpoint s))).
    now rewrite <- Horder.
  - destruct Hc as (Hstats & Horder & Hstep & Hpieces).
    unfold consistent. cbn. repeat split; assumption.
Qed.

Lemma handle_consistent (fuel : nat) (e : Event) (s : Session) :
  consistent s -> completes fuel e s -> consistent (handle fuel e s).
Proof.
  intros Hc Hcomp. unfold handle. now apply rerender_consistent, handler_consistent.
Qed.

Lemma insertAll_pieces (fuel : nat) (all : list Polygon) :
  forall polys tree,
    (forall p, In p polys -> In p all) ->
    Forall (fun q => exists p, In p all /\ pieceOf p q) (allPolygons (root tree)) ->
    Forall (fun q => exists p, In p all /\ pieceOf p q)
           (allPolygons (root (fst (insertAll fuel tree polys)))).
Proof.
  induction polys as [|poly rest IH]; intros tree Hincl Hall; [exact Hall|].
  cbn [insertAll].
  pose proof (insert_pieces fuel tree poly all all (fun p H => H)
                (Hincl poly (or_introl eq_refl)) Hall) as H1.
  destruct (insert fuel tree poly) as [tree' o]. cbn [fst] in H1.
  destruct o; [|exact H1|exact H1].
  apply IH; [|exact H1]. intros p Hp. apply Hincl. now right.
Qed.

(** X16. What the component shows stays in step with the tree. Before the
    mount effect, after it, and after any sequence of the handlers (adding a
    random square, clearing the scene, starting the animation, a timer step,
    pressing, moving and releasing the mouse) in which every [insert] returns:
    the statistics are the height and the node count of the tree, the render
    order kept is the traversal of the tree from the viewpoint kept, the
    animation step does not exceed its length, and every polygon stored in
    the tree is a polygon of the list kept or a fragment of one. *)
Theorem session_stays_consistent :
  consistent initialSession /\
  (forall fuel,
      snd (insertAll fuel emptyTree samplePolygons) = Returned ->
      consistent (mountEffect fuel initialSession)) /\
  (forall fuel events s,
      consistent s -> allComplete fuel events s -> consistent (run fuel events s)).
Proof.
  split; [|split].
  - unfold consistent. cbn. repeat split; constructor.
  - intros fuel Hret. unfold mountEffect. cbn [bspTree initialSession].
    pose proof (insertAll_pieces fuel samplePolygons samplePolygons emptyTree
                  (fun p H => H) (Forall_nil _)) as Hp.
    destruct (insertAll fuel emptyTree samplePolygons) as [tree o].
    cbn [fst snd] in *. subst o.
    unfold consistent. cbn. repeat split; [apply Nat.le_0_l | exact Hp].
  - intros fuel events. induction events as [|e rest IH]; intros s Hc Hall; [exact Hc|].
    destruct Hall as [He Hrest]. cbn [run]. apply IH; [|exact Hrest].
    now apply handle_consistent.
Qed.

Lemma session_stays_consistent_witness :
  let mounted := mountEffect 8 initialSession in
  let events := [MouseDown (mkPoint 100 100); MouseMove (mkPoint 120 90); MouseUp;
                 AddRandomPolygon 0.5 0.5 0.5 5 "#8b5cf6";
                 AnimateRender; TimerFires; TimerFires] in
  (stats mounted = mkStats 4 7 /\
   map id (stateRenderOrder mounted) = [2; 1; 4; 2; 4; 3; 4] /\
   length (statePolygons mounted) = 4%nat) /\
  consistent (run 8 events mounted).
Proof.
  cbv zeta. split; [repeat split; vm_compute; reflexivity|].
  destruct session_stays_consistent as (_ & Hmount & Hrun).
  apply Hrun.
  - apply Hmount. vm_compute. reflexivity.
  - vm_compute. repeat split.
Defined.

(** *** The plane of a polygon *)

Lemma mul_zero_finite (v : float) : is_finite v = true -> (0 * v =? 0) = true.
Proof.
  intros Hfin. rewrite eqb_spec, mul_spec, Prim2SF_zero.
  unfold is_finite, is_nan, is_infinity in Hfin.
  rewrite !eqb_spec, abs_spec in Hfin.
  assert (E : Prim2SF infinity = S754_infinity false) by (vm_compute; reflexivity).
  rewrite E in Hfin. clear E.
  unfold SF64mul, SFmul.
  destruct (Prim2SF v) as [s|s| |s m e]; try destruct s; try discriminate Hfin;
    reflexivity.
Qed.

Lemma add_zeros (a b : float) : (a =? 0) = true -> (b =? 0) = true -> (a + b =? 0) = true.
Proof.
  rewrite !eqb_spec, add_spec, Prim2SF_zero. unfold SF64add, SFadd, SFeqb.
  destruct (Prim2SF a) as [sa|sa| |sa ma ea]; try destruct sa; cbn [SFcompare];
    try discriminate;
    destruct (Prim2SF b) as [sb|sb| |sb mb eb]; try destruct sb; cbn [SFcompare];
    try discriminate; reflexivity.
Qed.

Lemma zero_in_band (d : float) :
  (d =? 0) = true -> (EPSILON <? d) = false /\ (d <? - EPSILON) = false.
Proof.
  rewrite eqb_spec, !ltb_spec, Prim2SF_zero.
  assert (E1 : Prim2SF EPSILON = S754_finite false 7205759403792794 (-56))
    by (vm_compute; reflexivity).
  assert (E2 : Prim2SF (- EPSILON) = S754_finite true 7205759403792794 (-56))
    by (vm_compute; reflexivity).
  rewrite E1, E2. unfold SFeqb, SFltb.
  destruct (Prim2SF d) as [s|s| |s m e]; try destruct s; cbn [SFcompare];
    try discriminate; split; reflexivity.
Qed.

(** X17. The plane that [createPartition] derives from a polygon passes
    through the polygon's first vertex: whenever that vertex has finite
    coordinates and the normal has finite components, the signed distance of
    the first vertex is zero, so it counts neither as front nor as back when
    the polygon, or any polygon sharing that vertex, is classified against the
    plane. *)
Theorem createPartition_through_first_vertex (polygon : Polygon) (part : Partition)
    (p1 : Point) (rest : list Point) :
  points polygon = p1 :: rest ->
  createPartition polygon = Normal part ->
  is_finite (x p1) = true -> is_finite (y p1) = true ->
  is_finite (x (normal part)) = true -> is_finite (y (normal part)) = true ->
  point part = p1 /\
  onPlane part p1 = true /\ isFront part p1 = false /\ isBack part p1 = false.
Proof.
  intros Hpts Hpart Hx Hy Hnx Hny.
  assert (Hpoint : point part = p1).
  { unfold createPartition in Hpart. rewrite Hpts in Hpart.
    destruct rest as [|p2 rest']; [discriminate|].
    cbv zeta in Hpart. injection Hpart as <-. reflexivity. }
  assert (Hzero : (pointToPlaneDistance p1 part =? 0) = true).
  { unfold pointToPlaneDistance. cbv zeta. rewrite Hpoint.
    rewrite (sub_diag_finite (x p1) Hx), (sub_diag_finite (y p1) Hy).
    apply add_zeros; now apply mul_zero_finite. }
  split; [exact Hpoint|]. split; [exact Hzero|].
  unfold isFront, isBack. now apply zero_in_band.
Qed.

Lemma createPartition_through_first_vertex_witness :
  onPlane partitionA (mkPoint 0 0) = true /\ isFront partitionA (mkPoint 0 0) = false.
Proof.
  destruct (createPartition_through_first_vertex squareA partitionA (mkPoint 0 0)
              [mkPoint 10 0; mkPoint 10 10; mkPoint 0 10])
    as (_ & Hon & Hf & _); try reflexivity.
  split; assumption.
Defined.
